(** * Periodogram estimators of [timeseries/pergrams.py]

    A shallow embedding of the Python module [pergrams.py] and the
    properties of its estimators.

    Modelling conventions.

    - A float64 is a value of [float]: a real number, or one of the three
      special values [+inf], [-inf], [NaN].  Finite arithmetic is exact
      (no rounding, no overflow) and the two signed zeros are one value;
      the special values follow IEEE 754 as numpy applies it.
    - numpy arrays are lists of [float].
    - Python exceptions are the errors of the [result] monad.  A division
      of Python scalars by zero raises [ZeroDivisionError]; the same
      division on numpy scalars or arrays yields [inf]/[NaN].
    - The compiled Fortran kernels ([pyscargle], [deeming], [eebls], ...)
      are not part of the Python source.  They are the fields of a record
      [fortran] that every estimator takes, and what is assumed about
      them is an explicit hypothesis ([keeps_shape]).
    - The decorators [defaults_pergram], [parallel_pergram] and
      [make_parallel] come from other modules; every estimator is modelled
      as its undecorated body, called with a complete grid [(f0, fn, df)].
    - Where numpy changed between releases ([np.linspace] called with a
      float count), the release is a parameter, [numpy_release].
    - Array sizes taken with [int] or [ceil] are taken on the exact
      quotient; where the quotient is within rounding of an integer the
      float64 size can be the neighbouring one. *)

From Stdlib Require Import Reals Lra Lia ZArith Bool String List.
Import ListNotations.

Local Open Scope R_scope.

(** ** float64 values *)

Module Float.

Inductive float : Type :=
| Fin (r : R)
| PInf
| NInf
| NaN.

Definition is_nan (x : float) : bool :=
  match x with NaN => true | _ => false end.

Definition is_finite (x : float) : bool :=
  match x with Fin _ => true | _ => false end.

Definition Rltb (a b : R) : bool := if Rlt_dec a b then true else false.
Definition Rleb (a b : R) : bool := if Rle_dec a b then true else false.
Definition Reqb (a b : R) : bool := if Req_dec_T a b then true else false.

Definition fopp (x : float) : float :=
  match x with
  | Fin a => Fin (- a)
  | PInf => NInf
  | NInf => PInf
  | NaN => NaN
  end.

Definition fadd (x y : float) : float :=
  match x, y with
  | NaN, _ | _, NaN => NaN
  | Fin a, Fin b => Fin (a + b)
  | PInf, NInf | NInf, PInf => NaN
  | PInf, _ | _, PInf => PInf
  | NInf, _ | _, NInf => NInf
  end.

Definition fsub (x y : float) : float := fadd x (fopp y).

(** The infinity carrying the sign of [a]; [NaN] when [a] is zero. *)
Definition inf_of_sign (a : R) : float :=
  if Rltb 0 a then PInf else if Rltb a 0 then NInf else NaN.

Definition fmul (x y : float) : float :=
  match x, y with
  | NaN, _ | _, NaN => NaN
  | Fin a, Fin b => Fin (a * b)
  | Fin a, PInf | PInf, Fin a => inf_of_sign a
  | Fin a, NInf | NInf, Fin a => inf_of_sign (- a)
  | PInf, PInf | NInf, NInf => PInf
  | PInf, NInf | NInf, PInf => NInf
  end.

(** numpy division: a zero divisor gives [inf] or [NaN], never an
    exception. *)
Definition fdiv (x y : float) : float :=
  match x, y with
  | NaN, _ | _, NaN => NaN
  | Fin a, Fin b => if Reqb b 0 then inf_of_sign a else Fin (a / b)
  | Fin _, PInf | Fin _, NInf => Fin 0
  | PInf, Fin b => if Rltb b 0 then NInf else PInf
  | NInf, Fin b => if Rltb b 0 then PInf else NInf
  | PInf, PInf | PInf, NInf | NInf, PInf | NInf, NInf => NaN
  end.

Definition fsqrt (x : float) : float :=
  match x with
  | Fin a => if Rltb a 0 then NaN else Fin (sqrt a)
  | PInf => PInf
  | NInf | NaN => NaN
  end.

Definition fsin (x : float) : float :=
  match x with Fin a => Fin (sin a) | _ => NaN end.

Definition fcos (x : float) : float :=
  match x with Fin a => Fin (cos a) | _ => NaN end.

(** Comparisons; every comparison with [NaN] is false. *)
Definition flt (x y : float) : bool :=
  match x, y with
  | NaN, _ | _, NaN => false
  | Fin a, Fin b => Rltb a b
  | NInf, NInf | PInf, _ => false
  | NInf, _ | Fin _, PInf => true
  | Fin _, NInf => false
  end.

Definition fle (x y : float) : bool :=
  match x, y with
  | NaN, _ | _, NaN => false
  | Fin a, Fin b => Rleb a b
  | NInf, _ | _, PInf => true
  | PInf, _ | Fin _, NInf => false
  end.

Definition feqb (x y : float) : bool :=
  match x, y with
  | Fin a, Fin b => Reqb a b
  | PInf, PInf | NInf, NInf => true
  | _, _ => false
  end.

(** Python truth value of a float: only zero is false; [NaN] is true. *)
Definition truthy (x : float) : bool :=
  match x with
  | Fin a => negb (Reqb a 0)
  | _ => true
  end.

(** Truncation towards zero of a real number, as C and Python do. *)
Definition Rtrunc (a : R) : Z :=
  if Rleb 0 a then Int_part a else (- Int_part (- a))%Z.

(** Smallest integer not below [a]. *)
Definition Rceil (a : R) : Z := (- Int_part (- a))%Z.

(** C [fmod]: the remainder has the sign of the dividend. *)
Definition ffmod (x y : float) : float :=
  match x, y with
  | NaN, _ | _, NaN => NaN
  | PInf, _ | NInf, _ => NaN
  | Fin a, PInf | Fin a, NInf => Fin a
  | Fin a, Fin b =>
      if Reqb b 0 then NaN else Fin (a - IZR (Rtrunc (a / b)) * b)
  end.

Definition fsum (l : list float) : float := fold_left fadd l (Fin 0).

Definition of_nat (n : nat) : float := Fin (INR n).
Definition of_Z (z : Z) : float := Fin (IZR z).

End Float.
Export Float.

Declare Scope float_scope.
Delimit Scope float_scope with fl.
Infix "+" := fadd : float_scope.
Infix "-" := fsub : float_scope.
Infix "*" := fmul : float_scope.
Infix "/" := fdiv : float_scope.

(** ** Python exceptions and the error monad *)

Inductive exn : Type :=
| NameError (name : string)
| ZeroDivisionError
| ValueError
| IndexError
| OverflowError
| TypeError.

Inductive result (A : Type) : Type :=
| Ok (a : A)
| Err (e : exn).
Arguments Ok {A} a.
Arguments Err {A} e.

Definition bind {A B : Type} (c : result A) (k : A -> result B) : result B :=
  match c with
  | Ok a => k a
  | Err e => Err e
  end.

Notation "x <- c ;; k" := (bind c (fun x => k))
  (at level 61, c at next level, right associativity).
Notation "' p <- c ;; k" := (bind c (fun x => let 'p := x in k))
  (at level 61, p pattern, c at next level, right associativity).

Fixpoint mapM {A B : Type} (f : A -> result B) (l : list A) : result (list B) :=
  match l with
  | [] => Ok []
  | a :: l' => b <- f a ;; bs <- mapM f l' ;; Ok (b :: bs)
  end.

Definition returns {A : Type} (c : result A) : Prop := exists a, c = Ok a.
Definition raises {A : Type} (c : result A) : Prop := exists e, c = Err e.

(** ** Python scalars *)

(** [x / y] on Python floats and ints. *)
Definition py_div (x y : float) : result float :=
  match y with
  | Fin b => if Reqb b 0 then Err ZeroDivisionError else Ok (x / y)%fl
  | _ => Ok (x / y)%fl
  end.

(** [int(x)]. *)
Definition py_int (x : float) : result Z :=
  match x with
  | Fin a => Ok (Rtrunc a)
  | PInf | NInf => Err OverflowError
  | NaN => Err ValueError
  end.

(** [range(n)], empty for [n <= 0]. *)
Definition py_range (n : Z) : list Z := map Z.of_nat (seq 0 (Z.to_nat n)).

(** ** numpy arrays *)

Definition array := list float.

(** [np.zeros(n)]. *)
Definition np_zeros (n : Z) : result array :=
  if (n <? 0)%Z then Err ValueError else Ok (repeat (Fin 0) (Z.to_nat n)).

(** One-dimensional broadcasting: equal lengths, or one operand of
    length one; anything else raises. *)
Fixpoint zip_with {A B C : Type} (f : A -> B -> C) (a : list A) (b : list B)
  : list C :=
  match a, b with
  | x :: a', y :: b' => f x y :: zip_with f a' b'
  | _, _ => []
  end.

Definition broadcast2 {A B C : Type} (f : A -> B -> C) (a : list A) (b : list B)
  : result (list C) :=
  if Nat.eqb (length a) (length b) then Ok (zip_with f a b)
  else match a, b with
       | [x], _ => Ok (map (f x) b)
       | _, [y] => Ok (map (fun x => f x y) a)
       | _, _ => Err ValueError
       end.

Definition fmax2 (x y : float) : float :=
  if is_nan x || is_nan y then NaN else if flt x y then y else x.
Definition fmin2 (x y : float) : float :=
  if is_nan x || is_nan y then NaN else if flt y x then y else x.

(** [a.ptp()]: peak to peak; a reduction without identity. *)
Definition np_ptp (a : array) : result float :=
  match a with
  | [] => Err ValueError
  | x :: a' => Ok (fold_left fmax2 a' x - fold_left fmin2 a' x)%fl
  end.

(** [a.mean()] and [a.var()] (population variance); [NaN] when empty. *)
Definition np_mean (a : array) : float := (fsum a / of_nat (length a))%fl.

Definition np_var (a : array) : float :=
  let m := np_mean a in
  np_mean (map (fun x => (x - m) * (x - m))%fl a).

(** [a[0]] and [a[0] = v]. *)
Definition getitem0 (a : array) : result float :=
  match a with
  | [] => Err IndexError
  | x :: _ => Ok x
  end.

Definition setitem0 (a : array) (v : float) : result array :=
  match a with
  | [] => Err IndexError
  | _ :: a' => Ok (v :: a')
  end.

(** ** Module namespace

    A free name of a function body is looked up in the module's global
    namespace when the body runs.  The namespace holds what the top-level
    statements of the file have bound: the imports and the [def]s, and,
    only when the file is executed as a script, the names bound inside
    [if __name__=="__main__":].  (A name missing there is looked up among
    the builtins, which hold none of the names looked up below.) *)

Inductive pyobj : Type :=
| PyFloat (x : float)
| PyObject.

Definition namespace := list (string * pyobj).

Definition bind_name (g : namespace) (name : string) (v : pyobj) : namespace :=
  (name, v) :: g.

Fixpoint lookup (g : namespace) (name : string) : option pyobj :=
  match g with
  | [] => None
  | (k, v) :: g' => if String.eqb k name then Some v else lookup g' name
  end.

Definition load_global (g : namespace) (name : string) : result pyobj :=
  match lookup g name with
  | Some v => Ok v
  | None => Err (NameError name)
  end.

Definition as_float (v : pyobj) : result float :=
  match v with
  | PyFloat x => Ok x
  | PyObject => Err TypeError
  end.

Local Open Scope string_scope.

(** Names bound by lines 19-759: imports, then one [def] per function. *)
Definition toplevel_names : list string :=
  [ "np"; "cos"; "sin"; "pi"; "make_parallel"; "parallel_pergram";
    "defaults_pergram"; "pyscargle"; "pyclean"; "pyGLS"; "pyKEP"; "multih";
    "fdeeming"; "eebls";
    "windowfunction"; "scargle"; "deeming"; "DFTpower"; "FFTpower";
    "FFTpowerdensity"; "weightedpower"; "gls"; "clean";
    "schwarzenberg_czerny"; "pdm"; "pdm_py"; "bls"; "kepler" ].

(** Names bound by lines 810-848, the script block. *)
Definition script_names : list string :=
  [ "pl"; "loggers"; "logger"; "x"; "y"; "i"; "norm"; "f1"; "s1"; "f2";
    "s2"; "f3"; "s3"; "f4"; "s4"; "f5"; "s5"; "f6"; "s6"; "f0"; "s0" ].

Inductive run_mode : Type :=
| Imported
| Script.

Definition bind_all (names : list string) (g : namespace) : namespace :=
  fold_left (fun g name => bind_name g name PyObject) names g.

Definition module_globals (m : run_mode) : namespace :=
  let g := bind_all toplevel_names [] in
  match m with
  | Imported => g
  | Script => bind_all script_names g
  end.

Local Close Scope string_scope.

(** [np.arange(start, stop, step)] on floats: [ceil((stop-start)/step)]
    samples [start + i*step].  The count is taken on the exact quotient;
    within rounding of an integer the float64 count can be the
    neighbouring one. *)
Definition np_arange (start stop step : float) : result array :=
  match start, stop, step with
  | Fin a, Fin b, Fin s =>
      if Reqb s 0 then Err ZeroDivisionError
      else Ok (map (fun i => Fin (a + IZR i * s))
                   (py_range (Rceil ((b - a) / s))))
  | _, _, _ => Err ValueError
  end.

(** [np.linspace(start, stop, num)] called with a float [num], as line 746
    calls it.  What numpy does with a float count depends on the release:
    - the early releases truncate it by [int] and return an empty array
      when [num <= 0];
    - the later releases up to 1.17 still truncate it by [int], but raise
      [ValueError] on a negative count (as modelled here from 1.17, a single
      sample is [0 * (stop - start) + start]);
    - from 1.18 on a float count raises [TypeError].
    The truncation is taken on the exact quotient; within rounding of an
    integer the float64 value can fall on its other side. *)
Inductive numpy_release : Type :=
| Numpy_early
| Numpy_up_to_1_17
| Numpy_1_18_on.

(** The samples for a count [n >= 2]: [arange(0, n) * step + start], the
    last one set to [stop]. *)
Definition linspace_samples (start stop : float) (n : Z) : array :=
  let step := ((stop - start) / of_Z (n - 1))%fl in
  let y := map (fun i => (of_Z i * step + start)%fl) (py_range n) in
  removelast y ++ [stop].

Definition np_linspace (np : numpy_release) (start stop num : float)
  : result array :=
  match np with
  | Numpy_early =>
      n <- py_int num ;;
      if (n <=? 0)%Z then Ok []
      else if (n =? 1)%Z then Ok [start]
      else Ok (linspace_samples start stop n)
  | Numpy_up_to_1_17 =>
      n <- py_int num ;;
      if (n <? 0)%Z then Err ValueError
      else if (n =? 0)%Z then Ok []
      else if (n =? 1)%Z then Ok [(of_Z 0 * (stop - start) + start)%fl]
      else Ok (linspace_samples start stop n)
  | Numpy_1_18_on => Err TypeError
  end.

(** [np.compress(condition, a)]: a true condition past the end of [a]
    raises. *)
Fixpoint np_compress {A : Type} (cond : list bool) (a : list A)
  : result (list A) :=
  match cond, a with
  | [], _ => Ok []
  | c :: cond', x :: a' =>
      r <- np_compress cond' a' ;;
      Ok (if c then x :: r else r)
  | c :: cond', [] =>
      if c then Err IndexError else np_compress cond' []
  end.

(** ** Estimators written in Python *)

(** [2.0*pi*f*time] *)
Definition angle (f : float) (time : array) : array :=
  map (fun t => (Fin 2 * Fin PI * f * t)%fl) time.

Definition fsq (x : float) : float := (x * x)%fl.

(** [windowfunction], lines 33-60. *)
Definition windowfunction (time freq : array) : array :=
  let Ntime := length time in
  let winkernel :=
    map (fun f => (fsq (fsum (map fcos (angle f time)))
                   + fsq (fsum (map fsin (angle f time))))%fl) freq in
  map (fun w => (w / of_nat (Ntime * Ntime))%fl) winkernel.

(** The coefficients of the weighted sine fit at one frequency,
    lines 355-365. *)
Record sinefit : Type := mk_sinefit {
  a11 : float; a12 : float; a21 : float; a22 : float;
  b1 : float; b2 : float
}.

Definition denominator (s : sinefit) : float :=
  (a11 s * a22 s - a12 s * a21 s)%fl.
Definition coefA (s : sinefit) : float :=
  ((b1 s * a22 s - b2 s * a12 s) / denominator s)%fl.
Definition coefB (s : sinefit) : float :=
  ((b2 s * a11 s - b1 s * a21 s) / denominator s)%fl.

Definition normal_sums (time signal weight : array) (f : float)
  : result sinefit :=
  let sine := map fsin (angle f time) in
  let cosine := map fcos (angle f time) in
  ws <- broadcast2 fmul weight sine ;;
  wss <- broadcast2 fmul ws sine ;;
  wsc <- broadcast2 fmul ws cosine ;;
  wc <- broadcast2 fmul weight cosine ;;
  wcc <- broadcast2 fmul wc cosine ;;
  wy <- broadcast2 fmul weight signal ;;
  wys <- broadcast2 fmul wy sine ;;
  wyc <- broadcast2 fmul wy cosine ;;
  Ok {| a11 := fsum wss; a12 := fsum wsc; a21 := fsum wsc;
        a22 := fsum wcc; b1 := fsum wys; b2 := fsum wyc |}.

(** [weightedpower], lines 330-370. *)
Definition weightedpower (time signal weight freq : array) : result array :=
  mapM (fun f =>
          if negb (feqb f (Fin 0)) then
            s <- normal_sums time signal weight f ;;
            Ok (coefA s * coefA s + coefB s * coefB s)%fl
          else
            Ok (fsum signal / of_nat (length signal))%fl)
       freq.

(** ** The Fortran kernels

    One field per foreign routine the estimators call.  Arguments are in
    the order of the call in the Python source. *)

Record fortran : Type := {
  (* pyscargle.scar2(signal,times,f0,df,f1,s1,ss,sc,ss2,sc2) *)
  scar2 : array -> array -> float -> float ->
          array -> array -> array -> array -> array -> array -> array * array;
  (* pyscargle.scar3(signal,times,f0,df,f1,s1,ss,sc,ss2,sc2,w) *)
  scar3 : array -> array -> float -> float ->
          array -> array -> array -> array -> array -> array -> array ->
          array * array;
  (* fdeeming.deeming1(times,signal,f0,df,nf) *)
  deeming1 : array -> array -> float -> float -> Z -> array * array;
  (* pyGLS.gls(times,signal,errors,f0,fn,df,wexp,f1,s1,p1,l1): the new
     contents of the four buffers it writes *)
  pyGLS_gls : array -> array -> array -> float -> float -> float -> Z ->
              array -> array -> array -> array ->
              array * array * array * array;
  (* pyscargle.justel(signal,times,f0,df,Nbin,Ncover,xvar,xx,f1,s1,n,nf) *)
  justel : array -> array -> float -> float -> Z -> Z -> float -> float ->
           array -> array -> nat -> Z -> array * array;
  (* pyscargle.justel2(signal,times,f0,df,Nbin,Ncover,xvar,xx,D,f1,s1,n,nf) *)
  justel2 : array -> array -> float -> float -> Z -> Z -> float -> float ->
            float -> array -> array -> nat -> Z -> array * array;
  (* multih.sfou(n,times,signal,ll,f0,df,nh,mode,th) *)
  sfou : nat -> array -> array -> nat -> float -> float -> Z -> Z -> array ->
         array;
  (* eebls.eebls(times,signal,u,v,nf,f0,df,nb,qmi,qma,n):
     power, depth, qtran, in1, in2 *)
  eebls : array -> array -> array -> array -> float -> float -> float ->
          Z -> float -> float -> nat ->
          array * float * float * float * float
}.

(** A kernel called with output buffers hands them back at their size. *)
Record keeps_shape (K : fortran) : Prop := {
  scar2_shape : forall sg ts f0 df f1 s1 ss sc ss2 sc2,
    length (fst (scar2 K sg ts f0 df f1 s1 ss sc ss2 sc2)) = length f1 /\
    length (snd (scar2 K sg ts f0 df f1 s1 ss sc ss2 sc2)) = length s1;
  scar3_shape : forall sg ts f0 df f1 s1 ss sc ss2 sc2 w,
    length (fst (scar3 K sg ts f0 df f1 s1 ss sc ss2 sc2 w)) = length f1 /\
    length (snd (scar3 K sg ts f0 df f1 s1 ss sc ss2 sc2 w)) = length s1;
  deeming1_shape : forall ts sg f0 df nf,
    length (fst (deeming1 K ts sg f0 df nf)) = Z.to_nat nf /\
    length (snd (deeming1 K ts sg f0 df nf)) = Z.to_nat nf;
  justel_shape : forall sg ts f0 df Nbin Ncover xvar xx f1 s1 n nf,
    length (fst (justel K sg ts f0 df Nbin Ncover xvar xx f1 s1 n nf))
      = length f1 /\
    length (snd (justel K sg ts f0 df Nbin Ncover xvar xx f1 s1 n nf))
      = length s1;
  justel2_shape : forall sg ts f0 df Nbin Ncover xvar xx D f1 s1 n nf,
    length (fst (justel2 K sg ts f0 df Nbin Ncover xvar xx D f1 s1 n nf))
      = length f1 /\
    length (snd (justel2 K sg ts f0 df Nbin Ncover xvar xx D f1 s1 n nf))
      = length s1
}.

(** ** Estimators built on the kernels *)

Local Open Scope string_scope.

(** [int((fn-f0)/df+0.001)+1], lines 117, 176 and 570. *)
Definition grid_size (f0 fn df : float) : result Z :=
  q <- py_div (fn - f0)%fl df ;;
  k <- py_int (q + Fin 0.001)%fl ;;
  Ok (k + 1)%Z.

(** The normalisation branches, lines 131-137 and 181-188. *)
Definition normalise (norm : string) (n : nat) (T : float) (signal s1 : array)
  : result array :=
  q <- py_div (Fin 4) (of_nat n) ;;
  let fact := fsqrt q in
  if String.eqb norm "distribution" then
    Ok (map (fun s => (s / np_var signal)%fl) s1)
  else if String.eqb norm "amplitude" then
    Ok (map (fun s => (fact * fsqrt s)%fl) s1)
  else if String.eqb norm "density" then
    Ok (map (fun s => (fsq fact * s * T)%fl) s1)
  else
    Ok s1.

(** [if not s1[0]: s1[0] = v], lines 130 and 581. *)
Definition fix_first (s1 : array) (v : float) : result array :=
  x <- getitem0 s1 ;;
  if truthy x then Ok s1 else setitem0 s1 v.

(** Lines 117-127 of [scargle]: the grid size, the buffers and the call
    of the kernel. *)
Definition scargle_kernel (g : namespace) (K : fortran) (times signal : array)
  (f0 fn df : float) (weights : option array) : result (array * array) :=
  nf <- grid_size f0 fn df ;;
  f1 <- np_zeros nf ;;
  s1 <- np_zeros nf ;;
  ss <- np_zeros nf ;;
  sc <- np_zeros nf ;;
  ss2 <- np_zeros nf ;;
  sc2 <- np_zeros nf ;;
  match weights with
  | None => Ok (scar2 K signal times f0 df f1 s1 ss sc ss2 sc2)
  | Some w =>
      _ <- load_global g "logger" ;;
      Ok (scar3 K signal times f0 df f1 s1 ss sc ss2 sc2 w)
  end.

(** The statistic of [scargle] as it stands after line 130, before the
    normalisation. *)
Definition scargle_raw (g : namespace) (K : fortran) (times signal : array)
  (f0 fn df : float) (weights : option array) : result (array * array) :=
  '(f1, s1) <- scargle_kernel g K times signal f0 fn df weights ;;
  s1 <- fix_first s1 (Fin 0) ;;
  Ok (f1, s1).

(** [scargle], lines 67-139. *)
Definition scargle (g : namespace) (K : fortran) (times signal : array)
  (f0 fn df : float) (norm : string) (weights : option array)
  : result (array * array) :=
  let n := length times in
  T <- np_ptp times ;;
  '(f1, s1) <- scargle_raw g K times signal f0 fn df weights ;;
  s1 <- normalise norm n T signal s1 ;;
  Ok (f1, s1).

(** The time span and the statistic of [deeming] as they stand after
    line 180. *)
Definition deeming_raw (K : fortran) (times signal : array) (f0 fn df : float)
  : result (float * array * array) :=
  nf <- grid_size f0 fn df ;;
  let n := length times in
  T <- np_ptp times ;;
  let '(f1, s1) := deeming1 K times signal f0 df nf in
  Ok (T, f1, map (fun s => (s / of_nat n)%fl) s1).

(** [deeming], lines 154-190. *)
Definition deeming (K : fortran) (times signal : array) (f0 fn df : float)
  (norm : string) : result (array * array) :=
  '(T, f1, s1) <- deeming_raw K times signal f0 fn df ;;
  s1 <- normalise norm (length times) T signal s1 ;;
  Ok (f1, s1).

(** [gls], lines 378-410.  [maxstep] is taken on the exact quotient;
    where [(fn-f0)/df] is within rounding of an integer the float64 value
    can be the neighbouring one. *)
Definition gls (K : fortran) (times signal : array) (f0 fn df : float)
  (errors : option array) (wexp : Z) : result (array * array) :=
  T <- np_ptp times ;;
  let n := length times in
  let errors := match errors with
                | None => repeat (Fin 1) n
                | Some e => e
                end in
  q <- py_div (fn - f0)%fl df ;;
  maxstep <- py_int (q + Fin 1)%fl ;;
  f1 <- np_zeros maxstep ;;
  s1 <- np_zeros maxstep ;;
  p1 <- np_zeros maxstep ;;
  l1 <- np_zeros maxstep ;;
  let '(f1, s1, p1, l1) :=
    pyGLS_gls K (map (fun t => t + Fin 0)%fl times)
                (map (fun s => s + Fin 0)%fl signal)
                errors f0 fn df wexp f1 s1 p1 l1 in
  Ok (f1, s1).

(** [schwarzenberg_czerny], lines 487-523. *)
Definition schwarzenberg_czerny (K : fortran) (times signal : array)
  (f0 fn df : float) (nh mode : Z) : result (array * array) :=
  T <- np_ptp times ;;
  let n := length times in
  frequencies <- np_arange f0 (fn + df)%fl df ;;
  let ll := length frequencies in
  th <- np_zeros (Z.of_nat (length frequencies)) ;;
  let th := sfou K n times signal ll f0 df nh mode th in
  Ok (frequencies, th).

(** [pdm], lines 536-583.  [signal.std()] is the square root of
    [signal.var()]. *)
Definition pdm (K : fortran) (times signal : array) (f0 fn df : float)
  (Nbin Ncover : Z) (D : option float) : result (array * array) :=
  T <- np_ptp times ;;
  let n := length times in
  let xvar := fsq (fsqrt (np_var signal)) in
  let xx := (of_Z (Z.of_nat n - 1) * xvar)%fl in
  nf <- grid_size f0 fn df ;;
  f1 <- np_zeros nf ;;
  s1 <- np_zeros nf ;;
  let '(f1, s1) :=
    match D with
    | None => justel K signal times f0 df Nbin Ncover xvar xx f1 s1 n nf
    | Some D => justel2 K signal times f0 df Nbin Ncover xvar xx D f1 s1 n nf
    end in
  s1 <- fix_first s1 (Fin 1) ;;
  Ok (f1, s1).

(** The start frequency after line 742. *)
Definition bls_f0 (T f0 : float) : float :=
  if flt f0 (Fin 2 / T)%fl then (Fin 2 / T)%fl else f0.

(** [bls], lines 691-750, under the numpy release [np]. *)
Definition bls (np : numpy_release) (K : fortran) (times signal : array)
  (f0 fn df : float) (nb : Z) (qmi qma : float) : result (array * array) :=
  let n := length times in
  T <- np_ptp times ;;
  u <- np_zeros (Z.of_nat n) ;;
  v <- np_zeros (Z.of_nat n) ;;
  nf <- py_div (fn - f0)%fl df ;;
  let f0 := bls_f0 T f0 in
  let '(power, depth, qtran, in1, in2) :=
    eebls K times signal u v nf f0 df nb qmi qma n in
  frequencies <- np_linspace np f0 fn nf ;;
  Ok (frequencies, power).

Local Close Scope string_scope.

(** ** Phase dispersion minimisation in Python *)

Fixpoint foldM {A B : Type} (f : B -> A -> result B) (l : list A) (b : B)
  : result B :=
  match l with
  | [] => Ok b
  | a :: l' => b' <- f b a ;; foldM f l' b'
  end.

(** The pairs [(k, n)] of lines 642-643, in loop order. *)
Definition bins (Nbin Ncover : Z) : list (Z * Z) :=
  flat_map (fun k => map (fun n => (k, n)) (py_range Ncover)) (py_range Nbin).

(** Lines 654-657: the selection of one (shifted) bin. *)
Definition bin_mask (left right : float) (phase : array) : list bool :=
  if flt left right then
    map (fun p => fle left p && flt p right) phase
  else
    map (fun p => negb (fle right p && flt p left)) phase.

(** Lines 649-664: one bin's contribution to [theta[i]] and [Nempty]. *)
Definition pdm_bin (binsize covershift : float) (phase signal : array)
  (acc : float * Z) (kn : Z * Z) : result (float * Z) :=
  let '(theta, Nempty) := acc in
  let '(k, n) := kn in
  let left := ffmod (of_Z k * binsize + of_Z n * covershift)%fl (Fin 1) in
  let right :=
    ffmod (of_Z (k + 1) * binsize + of_Z n * covershift)%fl (Fin 1) in
  bindata <- np_compress (bin_mask left right phase) signal ;;
  if negb (Nat.eqb (length bindata) 0) then
    Ok ((theta + of_Z (Z.of_nat (length bindata) - 1) * np_var bindata)%fl,
        Nempty)
  else
    Ok (theta, (Nempty + 1)%Z).

(** Line 634. *)
Definition pdm_phase (time : array) (D f : float) : result array :=
  t0 <- getitem0 time ;;
  Ok (map (fun t => ffmod ((t - t0) * f + D / Fin 2 * fsq t)%fl (Fin 1)) time).

(** Lines 631-668: the statistic at one frequency. *)
Definition pdm_theta (time signal : array) (Nbin Ncover : Z) (D : float)
  (binsize covershift f : float) : result float :=
  let Ntime := length time in
  phase <- pdm_phase time D f ;;
  '(theta, Nempty) <-
    foldM (pdm_bin binsize covershift phase signal) (bins Nbin Ncover)
          (Fin 0, 0%Z) ;;
  Ok (theta / of_Z (Ncover * Z.of_nat Ntime - (Ncover * Nbin - Nempty)))%fl.

(** [pdm_py], lines 592-676. *)
Definition pdm_py (time signal : array) (f0 fn df : float) (Nbin Ncover : Z)
  (D : float) : result (array * array) :=
  freq <- np_arange f0 (fn + df)%fl df ;;
  binsize <- py_div (Fin 1) (of_Z Nbin) ;;
  covershift <- py_div (Fin 1) (of_Z (Nbin * Ncover)) ;;
  theta <- mapM (pdm_theta time signal Nbin Ncover D binsize covershift) freq ;;
  Ok (freq, map (fun t => (t / np_var signal)%fl) theta).

(** ** The direct Fourier transform in Python *)

Definition complex : Type := float * float.

Definition cmul (z w : complex) : complex :=
  ((fst z * fst w - snd z * snd w)%fl, (fst z * snd w + snd z * fst w)%fl).
Definition cadd (z w : complex) : complex :=
  ((fst z + fst w)%fl, (snd z + snd w)%fl).
Definition of_real (x : float) : complex := (x, Fin 0).
Definition csum (l : list complex) : complex :=
  fold_left cadd l (Fin 0, Fin 0).

Definition fexp (x : float) : float :=
  match x with
  | Fin a => Fin (exp a)
  | PInf => PInf
  | NInf => Fin 0
  | NaN => NaN
  end.

(** [np.exp] of a complex number, as [exp(re) * (cos(im) + i sin(im))]. *)
Definition cexp (z : complex) : complex :=
  ((fexp (fst z) * fcos (snd z))%fl, (fexp (fst z) * fsin (snd z))%fl).

(** [np.exp(1j*2.*pi*nu*time)] *)
Definition phasor (nu : float) (time : array) : list complex :=
  let c :=
    cmul (cmul (cmul (Fin 0, Fin 1) (of_real (Fin 2))) (of_real (Fin PI)))
         (of_real nu) in
  map (fun t => cexp (cmul c (of_real t))) time.

(** [A *= B]: the product must have the shape of [A]. *)
Definition imul (A B : list complex) : result (list complex) :=
  if Nat.eqb (length A) (length B) then Ok (zip_with cmul A B)
  else match B with
       | [b] => Ok (map (fun a => cmul a b) A)
       | _ => Err ValueError
       end.

(** Lines 227-229, for [k] from [1] to [Nfreq - 1]. *)
Fixpoint dft_loop (steps : nat) (A B : list complex)
  : result (list complex) :=
  match steps with
  | O => Ok []
  | S steps' =>
      A' <- imul A B ;;
      rest <- dft_loop steps' A' B ;;
      Ok (csum A' :: rest)
  end.

Local Open Scope string_scope.

(** [DFTpower], lines 196-231.  [startfreq], [stopfreq] and [stepfreq]
    are not parameters of the function: they are free names, looked up
    in the module namespace. *)
Definition DFTpower (g : namespace) (time signal : array) (f0 fn df : float)
  : result array :=
  let Ntime := length time in
  stopfreq <- load_global g "stopfreq" ;;
  startfreq <- load_global g "startfreq" ;;
  stopfreq <- as_float stopfreq ;;
  startfreq <- as_float startfreq ;;
  stepfreq <- load_global g "stepfreq" ;;
  stepfreq <- as_float stepfreq ;;
  q <- py_div (stopfreq - startfreq)%fl stepfreq ;;
  Nfreq <- py_int (match q with Fin a => Fin (IZR (Rceil a)) | _ => q end) ;;
  A <- broadcast2 cmul (phasor startfreq time) (map of_real signal) ;;
  let B := phasor stepfreq time in
  ft <- np_zeros Nfreq ;;
  match Z.to_nat Nfreq with
  | O => Err IndexError
  | S steps =>
      rest <- dft_loop steps A B ;;
      let ft := csum A :: rest in
      Ok (map (fun z => ((fsq (fst z) + fsq (snd z)) * Fin 4
                         / of_nat (Ntime * Ntime))%fl) ft)
  end.

Local Close Scope string_scope.

(** ** Real-number reference values

    What the specification says an estimator computes, written on real
    numbers;
    the theorems relate the float-valued code to them on finite data. *)

Definition Rsum (l : list R) : R := fold_right Rplus 0 l.

Definition Rmean (l : list R) : R := Rsum l / INR (length l).

Definition Rvar (l : list R) : R :=
  Rmean (map (fun x => (x - Rmean l) * (x - Rmean l)) l).

(** [|W(f)|^2]: the squared sums of cosines and sines over [Ntime^2]. *)
Definition window_value (ts : list R) (f : R) : R :=
  (Rsqr (Rsum (map (fun t => cos (2 * PI * f * t)) ts))
   + Rsqr (Rsum (map (fun t => sin (2 * PI * f * t)) ts)))
  / Rsqr (INR (length ts)).

(** The number of grid points the specification gives every estimator:
    [floor((fn - f0)/df + 0.001) + 1]. *)
Definition specified_size (f0 fn df : R) : nat :=
  Z.to_nat (Int_part ((fn - f0) / df + 0.001) + 1).

(** The weighted normal equations of the fit [A sin(2 pi f t) +
    B cos(2 pi f t)] to [(ts, ys)] under weights [ws]:
    [  Sss A + Ssc B = Sys ]
    [  Ssc A + Scc B = Syc ]
    with [Sss = sum w sin^2], [Ssc = sum w sin cos], [Scc = sum w cos^2],
    [Sys = sum w y sin], [Syc = sum w y cos]. *)
Section NormalEquations.

Variables (ts ys ws : list R) (f : R).

Definition sines : list R := map (fun t => sin (2 * PI * f * t)) ts.
Definition cosines : list R := map (fun t => cos (2 * PI * f * t)) ts.

Definition Sss : R := Rsum (zip_with Rmult (zip_with Rmult ws sines) sines).
Definition Ssc : R := Rsum (zip_with Rmult (zip_with Rmult ws sines) cosines).
Definition Scc : R :=
  Rsum (zip_with Rmult (zip_with Rmult ws cosines) cosines).
Definition Sys : R := Rsum (zip_with Rmult (zip_with Rmult ws ys) sines).
Definition Syc : R := Rsum (zip_with Rmult (zip_with Rmult ws ys) cosines).

Definition determinant : R := Sss * Scc - Ssc * Ssc.

Definition solves_normal_equations (A B : R) : Prop :=
  Sss * A + Ssc * B = Sys /\ Ssc * A + Scc * B = Syc.

(** The solution by Cramer's rule, with denominator [determinant]. *)
Definition fit_A : R := (Sys * Scc - Syc * Ssc) / determinant.
Definition fit_B : R := (Syc * Sss - Sys * Ssc) / determinant.

(** What C5 says of the value [p] returned at frequency [f]. *)
Definition power_at (p : float) : Prop :=
  (f = 0 -> ys <> [] -> p = Fin (Rmean ys))
  /\ (f <> 0 -> determinant <> 0 ->
      solves_normal_equations fit_A fit_B
      /\ p = Fin (fit_A * fit_A + fit_B * fit_B)).

End NormalEquations.

(** A kernel set that computes nothing: every routine hands its output
    buffers back as they were allocated.  The kernel-generic theorems are
    exercised at this instance. *)
Definition idle_size (nf : float) : nat :=
  match nf with
  | Fin a => Z.to_nat (Rtrunc a)
  | _ => O
  end.

Definition idle_kernels : fortran := {|
  scar2 := fun _ _ _ _ f1 s1 _ _ _ _ => (f1, s1);
  scar3 := fun _ _ _ _ f1 s1 _ _ _ _ _ => (f1, s1);
  deeming1 := fun _ _ _ _ nf =>
    (repeat (Fin 0) (Z.to_nat nf), repeat (Fin 0) (Z.to_nat nf));
  pyGLS_gls := fun _ _ _ _ _ _ _ f1 s1 p1 l1 => (f1, s1, p1, l1);
  justel := fun _ _ _ _ _ _ _ _ f1 s1 _ _ => (f1, s1);
  justel2 := fun _ _ _ _ _ _ _ _ _ f1 s1 _ _ => (f1, s1);
  sfou := fun _ _ _ _ _ _ _ _ th => th;
  eebls := fun _ _ _ _ nf _ _ _ _ _ _ =>
    (repeat (Fin 0) (idle_size nf), Fin 0, Fin 0, Fin 0, Fin 0)
|}.

(** Kernels as [idle_kernels], but whose [scar2] writes the value [c] over
    the whole statistic buffer. *)
Definition constant_kernels (c : float) : fortran := {|
  scar2 := fun _ _ _ _ f1 s1 _ _ _ _ => (f1, map (fun _ => c) s1);
  scar3 := scar3 idle_kernels;
  deeming1 := deeming1 idle_kernels;
  pyGLS_gls := pyGLS_gls idle_kernels;
  justel := justel idle_kernels;
  justel2 := justel2 idle_kernels;
  sfou := sfou idle_kernels;
  eebls := eebls idle_kernels
|}.

(** ** The FFT power spectra

    [np.fft.rfft] belongs to numpy; it is modelled by what it computes,
    the discrete Fourier transform of a real array of [N] samples at the
    frequencies [k = 0 .. N/2], [sum_m x_m exp(-2 pi i k m / N)], and by
    the [ValueError] it raises on an empty array. *)

Definition twiddle_angle (N k m : nat) : R :=
  - (2 * PI * INR k * INR m / INR N).

Definition twiddle (N k m : nat) : complex :=
  (Fin (cos (twiddle_angle N k m)), Fin (sin (twiddle_angle N k m))).

Definition rfft (a : array) : result (list complex) :=
  let N := length a in
  if Nat.eqb N 0 then Err ValueError
  else
    Ok (map (fun k =>
               csum (zip_with (fun m x => cmul (of_real x) (twiddle N k m))
                              (seq 0 N) a))
            (seq 0 (N / 2 + 1))).

(** [np.abs(z)**2] *)
Definition cabs2 (z : complex) : float :=
  fsq (fsqrt (fsq (fst z) + fsq (snd z))%fl).

(** [np.arange(float(Nfreq)) / (Nfreq-1) * 0.5 / timestep],
    lines 270 and 316. *)
Definition fft_frequencies (Nfreq : nat) (timestep : float) : array :=
  map (fun k => (of_nat k / of_Z (Z.of_nat Nfreq - 1) * Fin 0.5
                 / timestep)%fl)
      (seq 0 Nfreq).

(** [FFTpower], lines 235-274. *)
Definition FFTpower (signal : array) (timestep : float)
  : result (array * array) :=
  fourier <- rfft signal ;;
  let Ntime := length signal in
  let Nfreq := length fourier in
  let power :=
    map (fun z => (cabs2 z * Fin 4 / of_nat (Ntime * Ntime))%fl) fourier in
  let freq := fft_frequencies Nfreq timestep in
  Ok (freq, power).

(** [FFTpowerdensity], lines 283-320. *)
Definition FFTpowerdensity (signal : array) (timestep : float)
  : result (array * array) :=
  fourier <- rfft signal ;;
  let Ntime := length signal in
  let Nfreq := length fourier in
  let powerdensity :=
    map (fun z => (cabs2 z / of_nat Ntime * timestep)%fl) fourier in
  let freq := fft_frequencies Nfreq timestep in
  Ok (freq, powerdensity).

(** The squared modulus of the transform of finite samples, on real
    numbers. *)
Definition dft_re (xs : list R) (k : nat) : R :=
  Rsum (zip_with (fun m x => x * cos (twiddle_angle (length xs) k m))
                 (seq 0 (length xs)) xs).

Definition dft_im (xs : list R) (k : nat) : R :=
  Rsum (zip_with (fun m x => x * sin (twiddle_angle (length xs) k m))
                 (seq 0 (length xs)) xs).

Definition dft_power (xs : list R) (k : nat) : R :=
  dft_re xs k * dft_re xs k + dft_im xs k * dft_im xs k.

(** ** [clean] and [kepler]

    The two remaining kernel estimators, with their kernels. *)

Record fortran_more : Type := {
  (* pyclean.main_clean(times,signal,fn,nf,gain,niter,nbins,
                        startfreqs,endfreqs): f, wpow, wpha *)
  main_clean : array -> array -> float -> Z -> float -> float -> Z ->
               array -> array -> array * array * array;
  (* pyKEP.kepler(times,signal,errors,f0,fn,df,wexp,e0,en,de,x00,x0n,
                  f1,s1,p1,l1,s2,k2): the new contents of the six
     buffers it writes *)
  pyKEP_kepler : array -> array -> array -> float -> float -> float -> Z ->
                 float -> float -> float -> float -> float ->
                 array -> array -> array -> array -> array -> array ->
                 array * array * array * array * array * array
}.




(** [kepler], lines 759-804.  [maxstep] is taken on the exact quotient,
    as in [gls]. *)
Definition kepler (M : fortran_more) (times signal : array) (f0 fn df : float)
  (e0 en de : float) (errors : option array) (wexp : Z) (x00 x0n : float)
  : result (array * array) :=
  T <- np_ptp times ;;
  let n := length times in
  let errors := match errors with
                | None => repeat (Fin 1) n
                | Some e => e
                end in
  q <- py_div (fn - f0)%fl df ;;
  maxstep <- py_int (q + Fin 1)%fl ;;
  f1 <- np_zeros maxstep ;;
  s1 <- np_zeros maxstep ;;
  p1 <- np_zeros maxstep ;;
  l1 <- np_zeros maxstep ;;
  s2 <- np_zeros maxstep ;;
  k2 <- np_zeros 6 ;;
  let '(f1, s1, p1, l1, s2, k2) :=
    pyKEP_kepler M (map (fun t => t + Fin 0)%fl times)
                 (map (fun s => s + Fin 0)%fl signal)
                 errors f0 fn df wexp e0 en de x00 x0n f1 s1 p1 l1 s2 k2 in
  Ok (f1, s2).

(** The kernels of [gls] and [kepler] write into the buffers they are
    given; a buffer written in place keeps its size. *)
Definition writes_in_place (K : fortran) (M : fortran_more) : Prop :=
  (forall ts sg er f0 fn df wexp f1 s1 p1 l1,
      let '(f1', s1', _, _) :=
        pyGLS_gls K ts sg er f0 fn df wexp f1 s1 p1 l1 in
      length f1' = length f1 /\ length s1' = length s1)
  /\ (forall ts sg er f0 fn df wexp e0 en de x00 x0n f1 s1 p1 l1 s2 k2,
         let '(f1', _, _, _, s2', _) :=
           pyKEP_kepler M ts sg er f0 fn df wexp e0 en de x00 x0n
                        f1 s1 p1 l1 s2 k2 in
         length f1' = length f1 /\ length s2' = length s2).

(** Kernels of [clean] and [kepler] that compute nothing. *)
Definition idle_more : fortran_more := {|
  main_clean := fun _ _ _ _ _ _ _ starts ends => (starts, ends, []);
  pyKEP_kepler := fun _ _ _ _ _ _ _ _ _ _ _ _ f1 s1 p1 l1 s2 k2 =>
    (f1, s1, p1, l1, s2, k2)
|}.

(** * Properties *)

(** ** Deciding comparisons of real numbers *)

Lemma Rltb_true (a b : R) : a < b -> Rltb a b = true.
Proof.
  intros H. unfold Rltb. destruct (Rlt_dec a b);
    [reflexivity | contradiction].
Qed.

Lemma Rltb_false (a b : R) : ~ a < b -> Rltb a b = false.
Proof.
  intros H. unfold Rltb. destruct (Rlt_dec a b);
    [contradiction | reflexivity].
Qed.

Lemma Rleb_true (a b : R) : a <= b -> Rleb a b = true.
Proof.
  intros H. unfold Rleb. destruct (Rle_dec a b);
    [reflexivity | contradiction].
Qed.

Lemma Rleb_false (a b : R) : ~ a <= b -> Rleb a b = false.
Proof.
  intros H. unfold Rleb. destruct (Rle_dec a b);
    [contradiction | reflexivity].
Qed.

Lemma Reqb_true (a b : R) : a = b -> Reqb a b = true.
Proof.
  intros H. unfold Reqb. destruct (Req_dec_T a b);
    [reflexivity | contradiction].
Qed.

Lemma Reqb_false (a b : R) : a <> b -> Reqb a b = false.
Proof.
  intros H. unfold Reqb. destruct (Req_dec_T a b);
    [contradiction | reflexivity].
Qed.

Lemma Reqb_eq (a b : R) : Reqb a b = true <-> a = b.
Proof.
  unfold Reqb. destruct (Req_dec_T a b); split; intros; congruence.
Qed.

(** Rewrites every comparison whose outcome [lra] can settle. *)
Ltac rdecide :=
  repeat match goal with
    | |- context [Rltb ?a ?b] =>
        first [ rewrite (Rltb_true a b) by lra
              | rewrite (Rltb_false a b) by lra ]
    | |- context [Rleb ?a ?b] =>
        first [ rewrite (Rleb_true a b) by lra
              | rewrite (Rleb_false a b) by lra ]
    | |- context [Reqb ?a ?b] =>
        first [ rewrite (Reqb_true a b) by lra
              | rewrite (Reqb_false a b) by lra ]
    end.

Lemma Rtrunc_nonneg (a : R) (z : Z) :
  IZR z <= a < IZR z + 1 -> 0 <= a -> Rtrunc a = z.
Proof.
  intros H H0. unfold Rtrunc. rewrite Rleb_true by assumption.
  symmetry. apply Int_part_spec. lra.
Qed.

Lemma Rtrunc_floor (a : R) : 0 <= a -> Rtrunc a = Int_part a.
Proof. intros H. unfold Rtrunc. now rewrite Rleb_true. Qed.

Lemma Int_part_nonneg (a : R) : 0 <= a -> (0 <= Int_part a)%Z.
Proof.
  intros H. destruct (base_Int_part a) as [_ Hb].
  apply Z.lt_succ_r. apply lt_IZR. rewrite succ_IZR. lra.
Qed.

(** ** The error monad *)

Lemma returns_not_raises {A : Type} (c : result A) : returns c -> ~ raises c.
Proof. intros [a ->] [e H]. discriminate. Qed.

(** ** The module namespace *)

Lemma logger_unbound_when_imported :
  lookup (module_globals Imported) "logger" = None.
Proof. reflexivity. Qed.

Lemma logger_bound_in_script :
  lookup (module_globals Script) "logger" = Some PyObject.
Proof. reflexivity. Qed.

(** ** [DFTpower] *)

(** None of the three free names is bound in either run mode. *)
Lemma DFTpower_names_unbound (m : run_mode) (name : string) :
  In name ["startfreq"; "stopfreq"; "stepfreq"]%string ->
  lookup (module_globals m) name = None.
Proof.
  intros [<- | [<- | [<- | []]]]; destruct m; reflexivity.
Qed.

(** C10: whatever its arguments, and whether the module is imported or
    run as a script, [DFTpower] raises [NameError] on the free name
    [stopfreq] at its first use (line 220) and returns no spectrum. *)
Theorem DFTpower_raises_NameError (m : run_mode) (time signal : array)
  (f0 fn df : float) :
  DFTpower (module_globals m) time signal f0 fn df
    = Err (NameError "stopfreq").
Proof.
  unfold DFTpower, load_global.
  rewrite (DFTpower_names_unbound m "stopfreq").
  - reflexivity.
  - simpl. auto.
Qed.

(** ** Finite data *)

Lemma fsum_from (l : list R) (a : R) :
  fold_left fadd (map Fin l) (Fin a) = Fin (a + Rsum l).
Proof.
  revert a. induction l as [| x l IH]; intros a; simpl.
  - f_equal. lra.
  - rewrite IH. f_equal. lra.
Qed.

Lemma fsum_Fin (l : list R) : fsum (map Fin l) = Fin (Rsum l).
Proof. unfold fsum. rewrite fsum_from. f_equal. lra. Qed.

Lemma angle_Fin (f : R) (ts : list R) :
  angle (Fin f) (map Fin ts) = map Fin (map (fun t => 2 * PI * f * t) ts).
Proof. unfold angle. rewrite !map_map. reflexivity. Qed.

Lemma fcos_Fin (l : list R) : map fcos (map Fin l) = map Fin (map cos l).
Proof. rewrite !map_map. reflexivity. Qed.

Lemma fsin_Fin (l : list R) : map fsin (map Fin l) = map Fin (map sin l).
Proof. rewrite !map_map. reflexivity. Qed.

Lemma INR_length_pos {A : Type} (l : list A) : l <> [] -> 0 < INR (length l).
Proof.
  destruct l; [congruence |]. intros _. apply lt_0_INR. simpl. lia.
Qed.

Lemma Rsum_repeat (c : R) (n : nat) : Rsum (repeat c n) = INR n * c.
Proof.
  induction n as [| n IH].
  - simpl. lra.
  - cbn [repeat Rsum fold_right]. fold (Rsum (repeat c n)).
    rewrite IH, S_INR. lra.
Qed.

(** ** [windowfunction] *)

Lemma windowfunction_Fin (ts fs : list R) :
  ts <> [] ->
  windowfunction (map Fin ts) (map Fin fs)
    = map (fun f => Fin (window_value ts f)) fs.
Proof.
  intros Hne. pose proof (INR_length_pos ts Hne) as Hn.
  unfold windowfunction. rewrite !map_map. apply map_ext. intros f.
  rewrite angle_Fin, fcos_Fin, fsin_Fin, !fsum_Fin, length_map.
  unfold fsq, of_nat. cbn [fmul fadd fdiv].
  rewrite Reqb_false by (rewrite mult_INR; nra).
  f_equal. unfold window_value, Rsqr. rewrite mult_INR, !map_map.
  reflexivity.
Qed.

Lemma window_value_0 (ts : list R) : ts <> [] -> window_value ts 0 = 1.
Proof.
  intros Hne. pose proof (INR_length_pos ts Hne) as Hn.
  unfold window_value.
  rewrite (map_ext (fun t => cos (2 * PI * 0 * t)) (fun _ => 1)).
  2:{ intros t. replace (2 * PI * 0 * t) with 0 by ring. apply cos_0. }
  rewrite (map_ext (fun t => sin (2 * PI * 0 * t)) (fun _ => 0)).
  2:{ intros t. replace (2 * PI * 0 * t) with 0 by ring. apply sin_0. }
  rewrite !map_const, !Rsum_repeat. unfold Rsqr. field. lra.
Qed.

(** C3: on a non-empty array of finite times, [windowfunction] returns at
    each finite frequency [f] the value
    [((sum cos(2 pi f t))^2 + (sum sin(2 pi f t))^2) / Ntime^2], and at the
    single frequency [0.0] it returns [[1.0]]. *)
Theorem windowfunction_spec (ts fs : list R) :
  ts <> [] ->
  windowfunction (map Fin ts) (map Fin fs)
    = map (fun f => Fin (window_value ts f)) fs
  /\ windowfunction (map Fin ts) [Fin 0] = [Fin 1].
Proof.
  intros Hne. split.
  - now apply windowfunction_Fin.
  - change [Fin 0] with (map Fin [0]).
    rewrite windowfunction_Fin by assumption.
    simpl. now rewrite window_value_0.
Qed.

Lemma windowfunction_spec_witness :
  [1; 2; 4] <> [] /\
  windowfunction (map Fin [1; 2; 4]) (map Fin [0; 0.5])
    = map (fun f => Fin (window_value [1; 2; 4] f)) [0; 0.5]
  /\ windowfunction (map Fin [1; 2; 4]) [Fin 0] = [Fin 1].
Proof.
  split; [discriminate | apply (windowfunction_spec [1; 2; 4] [0; 0.5])].
  discriminate.
Defined.

(** ** Grid sizes *)

Lemma idle_kernels_keep_shape : keeps_shape idle_kernels.
Proof.
  constructor; intros; simpl; try (split; reflexivity).
  split; apply repeat_length.
Qed.

Lemma np_zeros_Ok (n : Z) :
  (0 <= n)%Z -> np_zeros n = Ok (repeat (Fin 0) (Z.to_nat n)).
Proof.
  intros H. unfold np_zeros.
  destruct (Z.ltb_spec n 0); [lia | reflexivity].
Qed.

Lemma grid_size_valid (f0 fn df : R) :
  f0 < fn -> 0 < df ->
  grid_size (Fin f0) (Fin fn) (Fin df)
    = Ok (Int_part ((fn - f0) / df + 0.001) + 1)%Z.
Proof.
  intros Hf Hd. unfold grid_size, py_div.
  rewrite Reqb_false by lra. cbn [bind fsub fopp fadd fdiv].
  rewrite Reqb_false by lra. cbn [bind py_int fadd].
  rewrite Rtrunc_floor; [reflexivity |].
  assert (0 < (fn + - f0) / df) by (apply Rdiv_lt_0_compat; lra). lra.
Qed.

Lemma grid_size_positive (f0 fn df : R) :
  f0 < fn -> 0 < df ->
  (1 <= Int_part ((fn - f0) / df + 0.001) + 1)%Z.
Proof.
  intros Hf Hd.
  assert (0 < (fn - f0) / df) by (apply Rdiv_lt_0_compat; lra).
  assert (0 <= Int_part ((fn - f0) / df + 0.001))%Z
    by (apply Int_part_nonneg; lra).
  lia.
Qed.

Lemma np_ptp_nonempty (a : array) : a <> [] -> exists T, np_ptp a = Ok T.
Proof. destruct a; [congruence | intros _; simpl; eauto]. Qed.

Lemma fix_first_nonempty (s1 : array) (v : float) :
  s1 <> [] ->
  exists s, fix_first s1 v = Ok s /\ length s = length s1.
Proof.
  destruct s1 as [| x s1]; [congruence |]. intros _.
  unfold fix_first. cbn [getitem0 bind].
  destruct (truthy x); simpl; eauto.
Qed.

Lemma normalise_returns (norm : string) (n : nat) (T : float)
  (signal s1 : array) :
  (0 < n)%nat ->
  exists s, normalise norm n T signal s1 = Ok s /\ length s = length s1.
Proof.
  intros Hn. unfold normalise, py_div, of_nat.
  rewrite Reqb_false by (apply not_0_INR; lia). cbn [bind].
  repeat match goal with
         | |- context [if ?b then _ else _] => destruct b
         end;
    eexists; (split; [reflexivity |]); now rewrite ?length_map.
Qed.

Lemma length_pos_nonempty {A : Type} (l : list A) :
  (0 < length l)%nat -> l <> [].
Proof. destruct l; simpl; [lia | congruence]. Qed.

Section GridSizes.

Variable K : fortran.
Hypothesis HK : keeps_shape K.
Variables (times signal : array) (f0 fn df : R).
Hypothesis Htimes : times <> [].
Hypothesis Hfn : f0 < fn.
Hypothesis Hdf : 0 < df.

Lemma specified_size_pos : (0 < specified_size f0 fn df)%nat.
Proof.
  unfold specified_size.
  pose proof (grid_size_positive f0 fn df Hfn Hdf). lia.
Qed.

Lemma scargle_raw_unweighted (g : namespace) :
  exists f1 s1,
    scargle_raw g K times signal (Fin f0) (Fin fn) (Fin df) None = Ok (f1, s1)
    /\ length f1 = specified_size f0 fn df
    /\ length s1 = specified_size f0 fn df.
Proof.
  pose proof specified_size_pos as HN.
  pose proof (grid_size_positive f0 fn df Hfn Hdf) as Hpos.
  unfold scargle_raw, scargle_kernel.
  rewrite grid_size_valid by assumption. cbn [bind].
  rewrite np_zeros_Ok by lia. cbn [bind].
  set (z := repeat (Fin 0) _).
  destruct (scar2_shape K HK signal times (Fin f0) (Fin df) z z z z z z)
    as [H1 H2].
  destruct (scar2 K signal times (Fin f0) (Fin df) z z z z z z) as [f1 s1].
  simpl in H1, H2.
  assert (Hz : length z = specified_size f0 fn df)
    by (unfold z; now rewrite repeat_length).
  destruct (fix_first_nonempty s1 (Fin 0)) as (s & Hs & Hl).
  { apply length_pos_nonempty. lia. }
  rewrite Hs. cbn [bind]. exists f1, s. repeat split; congruence.
Qed.

Lemma scargle_length (g : namespace) (norm : string) :
  exists f1 s1,
    scargle g K times signal (Fin f0) (Fin fn) (Fin df) norm None
      = Ok (f1, s1)
    /\ length f1 = specified_size f0 fn df
    /\ length s1 = specified_size f0 fn df.
Proof.
  destruct (np_ptp_nonempty times Htimes) as [T HT].
  destruct (scargle_raw_unweighted g) as (f1 & s1 & Hraw & H1 & H2).
  destruct (normalise_returns norm (length times) T signal s1)
    as (s & Hs & Hl).
  { destruct times; [congruence | simpl; lia]. }
  unfold scargle. rewrite HT. cbn [bind]. rewrite Hraw. cbn [bind].
  rewrite Hs. cbn [bind]. exists f1, s. repeat split; congruence.
Qed.

Lemma deeming_length (norm : string) :
  exists f1 s1,
    deeming K times signal (Fin f0) (Fin fn) (Fin df) norm = Ok (f1, s1)
    /\ length f1 = specified_size f0 fn df
    /\ length s1 = specified_size f0 fn df.
Proof.
  destruct (np_ptp_nonempty times Htimes) as [T HT].
  unfold deeming, deeming_raw.
  rewrite grid_size_valid by assumption. cbn [bind]. rewrite HT. cbn [bind].
  destruct (deeming1_shape K HK times signal (Fin f0) (Fin df)
              (Int_part ((fn - f0) / df + 0.001) + 1)) as [H1 H2].
  destruct (deeming1 K times signal (Fin f0) (Fin df) _) as [f1 s1].
  simpl in H1, H2. cbn [bind].
  destruct (normalise_returns norm (length times) T signal
              (map (fun s => (s / of_nat (length times))%fl) s1))
    as (s & Hs & Hl).
  { destruct times; [congruence | simpl; lia]. }
  rewrite Hs. cbn [bind]. exists f1, s.
  rewrite length_map in Hl. repeat split; unfold specified_size; congruence.
Qed.

Lemma pdm_length (Nbin Ncover : Z) (D : option float) :
  exists f1 s1,
    pdm K times signal (Fin f0) (Fin fn) (Fin df) Nbin Ncover D = Ok (f1, s1)
    /\ length f1 = specified_size f0 fn df
    /\ length s1 = specified_size f0 fn df.
Proof.
  pose proof specified_size_pos as HN.
  pose proof (grid_size_positive f0 fn df Hfn Hdf) as Hpos.
  destruct (np_ptp_nonempty times Htimes) as [T HT].
  unfold pdm. rewrite HT. cbn [bind].
  rewrite grid_size_valid by assumption. cbn [bind].
  rewrite np_zeros_Ok by lia. cbn [bind].
  set (z := repeat (Fin 0) _).
  assert (Hz : length z = specified_size f0 fn df)
    by (unfold z; now rewrite repeat_length).
  set (r := match D with
            | None => justel K _ _ _ _ _ _ _ _ _ _ _ _
            | Some D' => justel2 K _ _ _ _ _ _ _ _ D' _ _ _ _
            end).
  assert (Hr : length (fst r) = specified_size f0 fn df
               /\ length (snd r) = specified_size f0 fn df).
  { unfold r. destruct D as [D' |].
    - destruct (justel2_shape K HK signal times (Fin f0) (Fin df) Nbin Ncover
                  (fsq (fsqrt (np_var signal)))
                  (of_Z (Z.of_nat (length times) - 1)
                   * fsq (fsqrt (np_var signal)))%fl
                  D' z z (length times)
                  (Int_part ((fn - f0) / df + 0.001) + 1)) as [H1 H2].
      split; congruence.
    - destruct (justel_shape K HK signal times (Fin f0) (Fin df) Nbin Ncover
                  (fsq (fsqrt (np_var signal)))
                  (of_Z (Z.of_nat (length times) - 1)
                   * fsq (fsqrt (np_var signal)))%fl
                  z z (length times)
                  (Int_part ((fn - f0) / df + 0.001) + 1)) as [H1 H2].
      split; congruence. }
  destruct r as [f1 s1]. simpl in Hr. destruct Hr as [H1 H2].
  destruct (fix_first_nonempty s1 (Fin 1)) as (s & Hs & Hl).
  { apply length_pos_nonempty. lia. }
  rewrite Hs. cbn [bind]. exists f1, s. repeat split; congruence.
Qed.

End GridSizes.

Lemma removelast_length {A : Type} (l : list A) :
  length (removelast l) = Nat.pred (length l).
Proof.
  rewrite removelast_firstn_len, length_firstn. lia.
Qed.

Lemma py_range_length (n : Z) : length (py_range n) = Z.to_nat n.
Proof. unfold py_range. now rewrite length_map, length_seq. Qed.

(** *** [pdm_py] returns on well-formed input, with its own grid size *)

Lemma mapM_returns {A B : Type} (f : A -> result B) (l : list A) :
  (forall a, returns (f a)) -> returns (mapM f l).
Proof.
  intros Hf. induction l as [| a l [bs IH]]; cbn [mapM].
  - now eexists.
  - destruct (Hf a) as [b Hb]. rewrite Hb, IH. cbn [bind]. now eexists.
Qed.

Lemma foldM_returns {A B : Type} (f : B -> A -> result B) (l : list A)
  (b : B) :
  (forall b a, returns (f b a)) -> returns (foldM f l b).
Proof.
  intros Hf. revert b. induction l as [| a l IH]; intros b; cbn [foldM].
  - now eexists.
  - destruct (Hf b a) as [b' Hb]. rewrite Hb. cbn [bind]. apply IH.
Qed.

Lemma np_compress_returns {A : Type} (cond : list bool) (a : list A) :
  length cond = length a -> returns (np_compress cond a).
Proof.
  revert a. induction cond as [| b cond IH]; intros [| x a] H;
    try discriminate; cbn [np_compress].
  - now eexists.
  - destruct (IH a) as [r Hr]; [simpl in H; lia |].
    rewrite Hr. cbn [bind]. now eexists.
Qed.

Lemma bin_mask_length (left right : float) (phase : array) :
  length (bin_mask left right phase) = length phase.
Proof. unfold bin_mask. destruct (flt left right); apply length_map. Qed.

Lemma pdm_py_returns (time signal : array) (f0 fn df : R) (Nbin Ncover : Z)
  (D : float) :
  time <> [] -> length signal = length time ->
  df <> 0 -> Nbin <> 0%Z -> Ncover <> 0%Z ->
  returns (pdm_py time signal (Fin f0) (Fin fn) (Fin df) Nbin Ncover D).
Proof.
  intros Ht Hlen Hdf Hb Hcv. unfold pdm_py.
  cbn [fadd np_arange]. rewrite Reqb_false by assumption. cbn [bind].
  unfold py_div, of_Z.
  rewrite Reqb_false by now apply not_0_IZR. cbn [bind].
  rewrite Reqb_false by (apply not_0_IZR; nia). cbn [bind].
  match goal with
  | |- context [mapM ?F ?l] => destruct (mapM_returns F l) as [th Hth]
  end.
  - intros f. unfold pdm_theta, pdm_phase.
    destruct time as [| t0 time']; [congruence |]. cbn [getitem0 bind].
    match goal with
    | |- context [foldM ?F ?l ?b] =>
        destruct (foldM_returns F l b) as [[theta Nempty] Hacc]
    end.
    + intros [theta Nempty] [k n]. unfold pdm_bin.
      match goal with
      | |- context [np_compress ?m signal] =>
          destruct (np_compress_returns m signal) as [bindata Hbd]
      end.
      { rewrite bin_mask_length, length_map. now symmetry. }
      rewrite Hbd. cbn [bind].
      destruct (negb (Nat.eqb (length bindata) 0)); now eexists.
    + rewrite Hacc. cbn [bind]. now eexists.
  - rewrite Hth. cbn [bind]. now eexists.
Qed.

Lemma mapM_length {A B : Type} (f : A -> result B) (l : list A) (r : list B) :
  mapM f l = Ok r -> length r = length l.
Proof.
  revert r. induction l as [| a l IH]; cbn [mapM]; intros r H.
  - injection H as <-. reflexivity.
  - destruct (f a) as [b | e]; cbn [bind] in H; [| discriminate].
    destruct (mapM f l) as [bs | e]; cbn [bind] in H; [| discriminate].
    injection H as <-. simpl. f_equal. now apply IH.
Qed.

(** [pdm_py] sizes both arrays by [np.arange(f0, fn+df, df)]. *)
Lemma pdm_py_length (time signal : array) (f0 fn df : R) (Nbin Ncover : Z)
  (D : float) (fr th : array) :
  df <> 0 ->
  pdm_py time signal (Fin f0) (Fin fn) (Fin df) Nbin Ncover D = Ok (fr, th) ->
  length fr = Z.to_nat (Rceil ((fn + df - f0) / df))
  /\ length th = length fr.
Proof.
  intros Hdf. unfold pdm_py. cbn [fadd np_arange].
  rewrite Reqb_false by assumption. cbn [bind].
  destruct (py_div (Fin 1) (of_Z Nbin)) as [binsize |]; cbn [bind];
    [| discriminate].
  destruct (py_div (Fin 1) (of_Z (Nbin * Ncover))) as [covershift |];
    cbn [bind]; [| discriminate].
  match goal with
  | |- context [mapM ?F ?l] => destruct (mapM F l) as [r |] eqn:Hr
  end; cbn [bind]; [| discriminate].
  intros [= <- <-]. apply mapM_length in Hr.
  rewrite !length_map in *. rewrite py_range_length in *. split; congruence.
Qed.

Lemma specified_size_0_105_1 : specified_size 0 10.5 1 = 11%nat.
Proof.
  unfold specified_size.
  rewrite <- (Int_part_spec ((10.5 - 0) / 1 + 0.001) 10); [reflexivity | lra].
Qed.

(** C1, as stated, fails on [pdm_py]: over the grid [f0 = 0],
    [fn = 10.5], [df = 1] it returns twelve frequencies and twelve
    statistics where the stated formula gives eleven. *)
Lemma pdm_py_size_counterexample :
  exists fr th,
    pdm_py [Fin 0; Fin 1] [Fin 1; Fin 3] (Fin 0) (Fin 10.5) (Fin 1) 5 2
           (Fin 0) = Ok (fr, th)
    /\ length fr = 12%nat /\ length th = 12%nat
    /\ specified_size 0 10.5 1 = 11%nat
    /\ length fr <> specified_size 0 10.5 1.
Proof.
  destruct (pdm_py_returns [Fin 0; Fin 1] [Fin 1; Fin 3] 0 10.5 1 5 2 (Fin 0))
    as [[fr th] H]; try discriminate; try reflexivity; try lra.
  exists fr, th. split; [exact H |].
  assert (Hd : 1 <> 0) by lra.
  destruct (pdm_py_length [Fin 0; Fin 1] [Fin 1; Fin 3] 0 10.5 1 5 2 (Fin 0)
              fr th Hd H) as [Hfr Hth].
  assert (H12 : Rceil ((10.5 + 1 - 0) / 1) = 12%Z).
  { unfold Rceil. rewrite <- (Int_part_spec (- ((10.5 + 1 - 0) / 1)) (-12));
      [reflexivity | lra]. }
  rewrite H12 in Hfr. change (Z.to_nat 12) with 12%nat in Hfr.
  assert (Hl : length fr = 12%nat) by congruence.
  repeat split;
    [exact Hl | congruence | apply specified_size_0_105_1
    | rewrite Hl, specified_size_0_105_1; lia].
Qed.

(** C1, amended: for [scargle] (unweighted), [deeming] and [pdm], called
    with a non-empty time array and a grid with [fn > f0] and [df > 0],
    and kernels that hand their buffers back at their size, the call
    returns a frequency array and a statistic array of the same length
    [floor((fn-f0)/df + 0.001) + 1]. *)
Theorem grid_estimators_size (K : fortran) (g : namespace)
  (times signal : array) (f0 fn df : R) (norm : string) (Nbin Ncover : Z)
  (D : option float) :
  keeps_shape K -> times <> [] -> f0 < fn -> 0 < df ->
  (exists f1 s1,
      scargle g K times signal (Fin f0) (Fin fn) (Fin df) norm None
        = Ok (f1, s1)
      /\ length f1 = specified_size f0 fn df
      /\ length s1 = specified_size f0 fn df)
  /\ (exists f1 s1,
         deeming K times signal (Fin f0) (Fin fn) (Fin df) norm = Ok (f1, s1)
         /\ length f1 = specified_size f0 fn df
         /\ length s1 = specified_size f0 fn df)
  /\ (exists f1 s1,
         pdm K times signal (Fin f0) (Fin fn) (Fin df) Nbin Ncover D
           = Ok (f1, s1)
         /\ length f1 = specified_size f0 fn df
         /\ length s1 = specified_size f0 fn df).
Proof.
  intros HK Ht Hf Hd. repeat split.
  - now apply scargle_length.
  - now apply deeming_length.
  - now apply pdm_length.
Qed.

Lemma np_ptp_0_10 : np_ptp [Fin 0; Fin 10] = Ok (Fin 10).
Proof. cbn. rdecide. cbn. repeat f_equal. lra. Qed.

Lemma idle_scargle_raw_0_1_1 (g : namespace) (times signal : array) :
  scargle_raw g idle_kernels times signal (Fin 0) (Fin 1) (Fin 1) None
    = Ok ([Fin 0; Fin 0], [Fin 0; Fin 0]).
Proof.
  unfold scargle_raw, scargle_kernel. rewrite grid_size_valid by lra.
  rewrite <- (Int_part_spec ((1 - 0) / 1 + 0.001) 1) by lra.
  change (1 + 1)%Z with 2%Z. cbn [bind]. rewrite np_zeros_Ok by lia.
  change (Z.to_nat 2) with 2%nat. cbn. rdecide. reflexivity.
Qed.

Lemma idle_deeming_raw_0_1_1 (signal : array) :
  deeming_raw idle_kernels [Fin 0; Fin 10] signal (Fin 0) (Fin 1) (Fin 1)
    = Ok (Fin 10, [Fin 0; Fin 0], [Fin 0; Fin 0]).
Proof.
  unfold deeming_raw. rewrite grid_size_valid by lra.
  rewrite <- (Int_part_spec ((1 - 0) / 1 + 0.001) 1) by lra.
  change (1 + 1)%Z with 2%Z. cbn [bind]. rewrite np_ptp_0_10. cbn [bind].
  cbn [idle_kernels deeming1]. change (Z.to_nat 2) with 2%nat.
  cbn [repeat map length of_nat fdiv]. rewrite Reqb_false by (simpl; lra).
  repeat f_equal; simpl; lra.
Qed.

Lemma grid_estimators_size_witness :
  keeps_shape idle_kernels /\ [Fin 0; Fin 10] <> [] /\ 0 < 10 /\ 0 < 1 /\
  (exists f1 s1,
      scargle (module_globals Imported) idle_kernels [Fin 0; Fin 10]
              [Fin 1; Fin 2] (Fin 0) (Fin 10) (Fin 1) "amplitude" None
        = Ok (f1, s1)
      /\ length f1 = specified_size 0 10 1
      /\ length s1 = specified_size 0 10 1)
  /\ (exists f1 s1,
         deeming idle_kernels [Fin 0; Fin 10] [Fin 1; Fin 2]
                 (Fin 0) (Fin 10) (Fin 1) "amplitude" = Ok (f1, s1)
         /\ length f1 = specified_size 0 10 1
         /\ length s1 = specified_size 0 10 1)
  /\ (exists f1 s1,
         pdm idle_kernels [Fin 0; Fin 10] [Fin 1; Fin 2]
             (Fin 0) (Fin 10) (Fin 1) 5 2 (Some (Fin 0)) = Ok (f1, s1)
         /\ length f1 = specified_size 0 10 1
         /\ length s1 = specified_size 0 10 1).
Proof.
  split; [apply idle_kernels_keep_shape |].
  split; [discriminate |].
  split; [lra |].
  split; [lra |].
  apply (grid_estimators_size idle_kernels (module_globals Imported)
           [Fin 0; Fin 10] [Fin 1; Fin 2] 0 10 1 "amplitude" 5 2
           (Some (Fin 0))).
  - apply idle_kernels_keep_shape.
  - discriminate.
  - lra.
  - lra.
Defined.

(** ** Normalisation *)

Lemma fix_first_zero (s1 : array) : s1 <> [] -> fix_first s1 (Fin 0) = Ok s1.
Proof.
  destruct s1 as [| x s1]; [congruence |]. intros _.
  unfold fix_first. cbn [getitem0 bind].
  destruct (truthy x) eqn:Hx; [reflexivity |].
  destruct x as [a | | |]; try discriminate.
  simpl in Hx. apply negb_false_iff, Reqb_eq in Hx. subst a. reflexivity.
Qed.

Section Normalisation.

Variables (n : nat) (T : float) (signal S : array).
Hypothesis Hn : (0 < n)%nat.

Lemma four_over_n_pos : 0 < 4 / INR n.
Proof. apply Rdiv_lt_0_compat; [lra | now apply lt_0_INR]. Qed.

Lemma fact_value : py_div (Fin 4) (of_nat n) = Ok (Fin (4 / INR n)).
Proof.
  pose proof four_over_n_pos.
  unfold py_div, of_nat. rewrite Reqb_false by (apply not_0_INR; lia).
  cbn [fdiv]. rewrite Reqb_false by (apply not_0_INR; lia). reflexivity.
Qed.

Lemma normalise_power : normalise "power" n T signal S = Ok S.
Proof. unfold normalise. rewrite fact_value. reflexivity. Qed.

Lemma normalise_amplitude :
  normalise "amplitude" n T signal S
    = Ok (map (fun s => (Fin (sqrt (4 / INR n)) * fsqrt s)%fl) S).
Proof.
  pose proof four_over_n_pos.
  unfold normalise. rewrite fact_value.
  cbn [bind String.eqb Ascii.eqb Bool.eqb].
  cbn [fsqrt]. rewrite Rltb_false by lra. reflexivity.
Qed.

Lemma normalise_density :
  normalise "density" n T signal S
    = Ok (map (fun s => (Fin (4 / INR n) * s * T)%fl) S).
Proof.
  pose proof four_over_n_pos.
  unfold normalise. rewrite fact_value.
  cbn [bind String.eqb Ascii.eqb Bool.eqb].
  cbn [fsqrt]. rewrite Rltb_false by lra.
  unfold fsq. cbn [fmul]. rewrite sqrt_sqrt by lra. reflexivity.
Qed.

Lemma normalise_distribution :
  normalise "distribution" n T signal S
    = Ok (map (fun s => (s / np_var signal)%fl) S).
Proof. unfold normalise. rewrite fact_value. reflexivity. Qed.

End Normalisation.

Lemma np_ptp_Ok_length (a : array) (T : float) :
  np_ptp a = Ok T -> (0 < length a)%nat.
Proof. destruct a; simpl; [discriminate | lia]. Qed.

(** The statistic [scargle] normalises is the kernel's: line 130 writes
    [0.] over a value that is already zero. *)
Lemma scargle_raw_is_kernel_output (g : namespace) (K : fortran)
  (times signal : array) (f0 fn df : float) (f1 S : array) :
  scargle_raw g K times signal f0 fn df None = Ok (f1, S) ->
  exists z, (f1, S) = scar2 K signal times f0 df z z z z z z.
Proof.
  unfold scargle_raw, scargle_kernel. intros H.
  destruct (grid_size f0 fn df) as [nf |]; [| discriminate].
  cbn [bind] in H.
  destruct (np_zeros nf) as [z |]; [| discriminate]. cbn [bind] in H.
  exists z. destruct (scar2 K signal times f0 df z z z z z z) as [k1 kS].
  destruct kS as [| x kS]; [discriminate |].
  rewrite fix_first_zero in H by discriminate. cbn [bind] in H.
  congruence.
Qed.

(** C2: with [n = len(times)] samples and time span [T], [scargle] and
    [deeming] return the raw statistic [S] unchanged under ['power'],
    [sqrt(4/n) * sqrt(S)] under ['amplitude'], [(4/n) * S * T] under
    ['density'] and [S / var(signal)] under ['distribution'], element by
    element.  The raw statistic of [deeming] is the kernel's divided by
    [n] (line 180). *)
Theorem normalisation_modes (g : namespace) (K : fortran)
  (times signal : array) (f0 fn df : float) (weights : option array)
  (T : float) (f1 S d1 SD : array) :
  np_ptp times = Ok T ->
  let n := INR (length times) in
  (scargle_raw g K times signal f0 fn df weights = Ok (f1, S) ->
   scargle g K times signal f0 fn df "power" weights = Ok (f1, S)
   /\ scargle g K times signal f0 fn df "amplitude" weights
      = Ok (f1, map (fun s => (Fin (sqrt (4 / n)) * fsqrt s)%fl) S)
   /\ scargle g K times signal f0 fn df "density" weights
      = Ok (f1, map (fun s => (Fin (4 / n) * s * T)%fl) S)
   /\ scargle g K times signal f0 fn df "distribution" weights
      = Ok (f1, map (fun s => (s / np_var signal)%fl) S))
  /\
  (deeming_raw K times signal f0 fn df = Ok (T, d1, SD) ->
   deeming K times signal f0 fn df "power" = Ok (d1, SD)
   /\ deeming K times signal f0 fn df "amplitude"
      = Ok (d1, map (fun s => (Fin (sqrt (4 / n)) * fsqrt s)%fl) SD)
   /\ deeming K times signal f0 fn df "density"
      = Ok (d1, map (fun s => (Fin (4 / n) * s * T)%fl) SD)
   /\ deeming K times signal f0 fn df "distribution"
      = Ok (d1, map (fun s => (s / np_var signal)%fl) SD)).
Proof.
  intros HT n. pose proof (np_ptp_Ok_length times T HT) as Hn.
  split; intros Hraw.
  - unfold scargle. rewrite HT, Hraw. cbn [bind].
    rewrite normalise_power, normalise_amplitude, normalise_density,
      normalise_distribution by assumption.
    repeat split; reflexivity.
  - unfold deeming. rewrite Hraw. cbn [bind].
    rewrite normalise_power, normalise_amplitude, normalise_density,
      normalise_distribution by assumption.
    repeat split; reflexivity.
Qed.

Lemma normalisation_modes_witness :
  np_ptp [Fin 0; Fin 10] = Ok (Fin 10) /\
  (let times := [Fin 0; Fin 10] in
   let signal := [Fin 1; Fin 2] in
   let S := [Fin 0; Fin 0] in
   let f1 := [Fin 0; Fin 0] in
   let g := module_globals Imported in
   (scargle g idle_kernels times signal (Fin 0) (Fin 1) (Fin 1) "power" None
      = Ok (f1, S)
    /\ scargle g idle_kernels times signal (Fin 0) (Fin 1) (Fin 1)
               "amplitude" None
       = Ok (f1, map (fun s => (Fin (sqrt (4 / INR 2)) * fsqrt s)%fl) S)
    /\ scargle g idle_kernels times signal (Fin 0) (Fin 1) (Fin 1)
               "density" None
       = Ok (f1, map (fun s => (Fin (4 / INR 2) * s * Fin 10)%fl) S)
    /\ scargle g idle_kernels times signal (Fin 0) (Fin 1) (Fin 1)
               "distribution" None
       = Ok (f1, map (fun s => (s / np_var signal)%fl) S))
   /\
   (deeming idle_kernels times signal (Fin 0) (Fin 1) (Fin 1) "power"
      = Ok (f1, S)
    /\ deeming idle_kernels times signal (Fin 0) (Fin 1) (Fin 1) "amplitude"
       = Ok (f1, map (fun s => (Fin (sqrt (4 / INR 2)) * fsqrt s)%fl) S)
    /\ deeming idle_kernels times signal (Fin 0) (Fin 1) (Fin 1) "density"
       = Ok (f1, map (fun s => (Fin (4 / INR 2) * s * Fin 10)%fl) S)
    /\ deeming idle_kernels times signal (Fin 0) (Fin 1) (Fin 1)
               "distribution"
       = Ok (f1, map (fun s => (s / np_var signal)%fl) S))).
Proof.
  split; [exact np_ptp_0_10 |].
  destruct (normalisation_modes (module_globals Imported) idle_kernels
              [Fin 0; Fin 10] [Fin 1; Fin 2] (Fin 0) (Fin 1) (Fin 1) None
              (Fin 10) [Fin 0; Fin 0] [Fin 0; Fin 0] [Fin 0; Fin 0]
              [Fin 0; Fin 0] np_ptp_0_10) as [Hs Hd].
  split.
  - apply Hs. apply idle_scargle_raw_0_1_1.
  - apply Hd. apply idle_deeming_raw_0_1_1.
Defined.

(** ** Mean and variance of finite data *)

Lemma np_mean_Fin (l : list R) :
  l <> [] -> np_mean (map Fin l) = Fin (Rmean l).
Proof.
  intros Hne. pose proof (INR_length_pos l Hne).
  unfold np_mean, of_nat, Rmean. rewrite fsum_Fin, length_map.
  cbn [fdiv]. now rewrite Reqb_false by lra.
Qed.

Lemma np_var_Fin (l : list R) : l <> [] -> np_var (map Fin l) = Fin (Rvar l).
Proof.
  intros Hne. unfold np_var, Rvar. rewrite np_mean_Fin by assumption.
  rewrite map_map.
  rewrite <- (map_map (fun x => (x - Rmean l) * (x - Rmean l)) Fin).
  apply np_mean_Fin. destruct l; [congruence | discriminate].
Qed.

Lemma np_var_empty : np_var [] = NaN.
Proof.
  unfold np_var, np_mean, fsum, of_nat, fdiv. simpl.
  rewrite Reqb_true by reflexivity. unfold inf_of_sign.
  now rewrite !Rltb_false by lra.
Qed.

Lemma Rvar_repeat (c : R) (m : nat) : Rvar (repeat c m) = 0.
Proof.
  unfold Rvar, Rmean at 1. rewrite length_map, repeat_length.
  rewrite (map_ext_in _ (fun _ => 0)).
  - rewrite map_const, repeat_length, Rsum_repeat. unfold Rdiv. ring.
  - intros x Hx. pose proof (repeat_spec _ _ _ Hx) as ->.
    destruct m as [| m]; [inversion Hx |].
    unfold Rmean. rewrite Rsum_repeat, repeat_length.
    assert (0 < INR (S m)) by (apply lt_0_INR; lia).
    replace (INR (S m) * c / INR (S m)) with c by (field; lra). ring.
Qed.

Lemma repeat_Fin (c : R) (m : nat) : repeat (Fin c) m = map Fin (repeat c m).
Proof. induction m; simpl; congruence. Qed.

(** A constant signal has zero variance. *)
Lemma np_var_constant (c : R) (m : nat) :
  (0 < m)%nat -> np_var (repeat (Fin c) m) = Fin 0.
Proof.
  intros Hm. rewrite repeat_Fin, np_var_Fin, Rvar_repeat; [reflexivity |].
  destruct m; [lia | discriminate].
Qed.

Lemma fdiv_zero_not_finite (x : float) : is_finite (x / Fin 0)%fl = false.
Proof.
  destruct x as [a | | |]; cbn [fdiv].
  - rewrite Reqb_true by reflexivity. unfold inf_of_sign.
    destruct (Rltb 0 a), (Rltb a 0); reflexivity.
  - now rewrite Rltb_false by lra.
  - now rewrite Rltb_false by lra.
  - reflexivity.
Qed.

(** ** Degenerate input to [scargle] *)

(** C4, as stated, fails: on a constant signal with
    [norm='distribution'] the call raises nothing and returns a statistic
    array of [NaN]. *)
Lemma constant_signal_counterexample :
  scargle (module_globals Imported) idle_kernels [Fin 0; Fin 10]
          [Fin 3; Fin 3] (Fin 0) (Fin 1) (Fin 1) "distribution" None
    = Ok ([Fin 0; Fin 0], [NaN; NaN])
  /\ ~ raises (scargle (module_globals Imported) idle_kernels [Fin 0; Fin 10]
                       [Fin 3; Fin 3] (Fin 0) (Fin 1) (Fin 1)
                       "distribution" None).
Proof.
  assert (H : scargle (module_globals Imported) idle_kernels [Fin 0; Fin 10]
                [Fin 3; Fin 3] (Fin 0) (Fin 1) (Fin 1) "distribution" None
              = Ok ([Fin 0; Fin 0], [NaN; NaN])).
  { unfold scargle. rewrite np_ptp_0_10. cbn [bind].
    rewrite idle_scargle_raw_0_1_1. cbn [bind].
    rewrite normalise_distribution by (simpl; lia).
    change [Fin 3; Fin 3] with (repeat (Fin 3) 2).
    rewrite np_var_constant by lia. cbn [bind map fdiv].
    rewrite Reqb_true by reflexivity. unfold inf_of_sign.
    now rewrite !Rltb_false by lra. }
  split; [exact H |]. apply returns_not_raises. rewrite H. now eexists.
Qed.

(** C4, amended: on a signal of zero variance, with a non-empty time
    array, a grid with [fn > f0] and [df > 0] and no weights, [scargle]
    with [norm='distribution'] raises nothing: it returns, and no element
    of the returned statistic is a finite number (each is [NaN] or an
    infinity). *)
Theorem zero_variance_distribution (g : namespace) (K : fortran)
  (times signal : array) (f0 fn df : R) :
  keeps_shape K -> times <> [] -> f0 < fn -> 0 < df ->
  np_var signal = Fin 0 ->
  exists f1 s1,
    scargle g K times signal (Fin f0) (Fin fn) (Fin df) "distribution" None
      = Ok (f1, s1)
    /\ s1 <> []
    /\ Forall (fun x => is_finite x = false) s1.
Proof.
  intros HK Ht Hf Hd Hv.
  destruct (np_ptp_nonempty times Ht) as [T HT].
  destruct (scargle_raw_unweighted K HK times signal f0 fn df Hf Hd g)
    as (f1 & S & Hraw & H1 & H2).
  pose proof (specified_size_pos f0 fn df Hf Hd) as HN.
  unfold scargle. rewrite HT. cbn [bind]. rewrite Hraw. cbn [bind].
  rewrite normalise_distribution by (destruct times; [congruence | simpl; lia]).
  cbn [bind]. eexists _, _. split; [reflexivity |]. split.
  - destruct S; [simpl in H2; lia | discriminate].
  - rewrite Hv. apply Forall_map. apply Forall_forall. intros x _.
    apply fdiv_zero_not_finite.
Qed.

Lemma zero_variance_distribution_witness :
  keeps_shape idle_kernels /\ [Fin 0; Fin 10] <> [] /\ 0 < 1 /\
  np_var (repeat (Fin 3) 2) = Fin 0 /\
  exists f1 s1,
    scargle (module_globals Imported) idle_kernels [Fin 0; Fin 10]
            (repeat (Fin 3) 2) (Fin 0) (Fin 1) (Fin 1) "distribution" None
      = Ok (f1, s1)
    /\ s1 <> []
    /\ Forall (fun x => is_finite x = false) s1.
Proof.
  split; [apply idle_kernels_keep_shape |].
  split; [discriminate |].
  split; [lra |].
  split; [apply np_var_constant; lia |].
  apply (zero_variance_distribution (module_globals Imported) idle_kernels
           [Fin 0; Fin 10] (repeat (Fin 3) 2) 0 1 1).
  - apply idle_kernels_keep_shape.
  - discriminate.
  - lra.
  - lra.
  - apply np_var_constant. lia.
Defined.

(** ** The guard on the first value *)

Lemma idle_scargle_kernel_0_1_1 (g : namespace) (times signal : array) :
  scargle_kernel g idle_kernels times signal (Fin 0) (Fin 1) (Fin 1) None
    = Ok ([Fin 0; Fin 0], [Fin 0; Fin 0]).
Proof.
  unfold scargle_kernel. rewrite grid_size_valid by lra.
  rewrite <- (Int_part_spec ((1 - 0) / 1 + 0.001) 1) by lra.
  change (1 + 1)%Z with 2%Z. cbn [bind]. rewrite np_zeros_Ok by lia.
  reflexivity.
Qed.

(** C8, as stated, fails: the kernel's first value is zero, line 130
    sets it to [0.], and the first value returned under
    [norm='distribution'] for a constant signal is [NaN]. *)
Lemma first_value_counterexample :
  scargle_kernel (module_globals Imported) idle_kernels [Fin 0; Fin 10]
                 [Fin 5; Fin 5] (Fin 0) (Fin 1) (Fin 1) None
    = Ok ([Fin 0; Fin 0], [Fin 0; Fin 0])
  /\ truthy (Fin 0) = false
  /\ scargle (module_globals Imported) idle_kernels [Fin 0; Fin 10]
             [Fin 5; Fin 5] (Fin 0) (Fin 1) (Fin 1) "distribution" None
     = Ok ([Fin 0; Fin 0], [NaN; NaN]).
Proof.
  split; [apply idle_scargle_kernel_0_1_1 |].
  split; [simpl; now rewrite Reqb_true |].
  unfold scargle. rewrite np_ptp_0_10. cbn [bind].
  rewrite idle_scargle_raw_0_1_1. cbn [bind].
  rewrite normalise_distribution by (simpl; lia).
  change [Fin 5; Fin 5] with (repeat (Fin 5) 2).
  rewrite np_var_constant by lia. cbn [bind map fdiv].
  rewrite Reqb_true by reflexivity. unfold inf_of_sign.
  now rewrite !Rltb_false by lra.
Qed.

Lemma fix_first_false (x v : float) (S : array) :
  truthy x = false -> fix_first (x :: S) v = Ok (v :: S).
Proof. intros H. unfold fix_first. cbn [getitem0 bind]. now rewrite H. Qed.

Lemma normalise_zero_first (norm : string) (n : nat) (T : R)
  (signal S : array) :
  (0 < n)%nat ->
  norm <> "distribution"%string
  \/ (exists v, np_var signal = Fin v /\ v <> 0) ->
  exists S', normalise norm n (Fin T) signal (Fin 0 :: S) = Ok (Fin 0 :: S').
Proof.
  intros Hn Hnorm.
  assert (H4 : 0 < 4 / INR n)
    by (apply Rdiv_lt_0_compat; [lra | now apply lt_0_INR]).
  unfold normalise. rewrite fact_value by assumption. cbn [bind].
  destruct (String.eqb_spec norm "distribution") as [-> | Hd].
  - destruct Hnorm as [Hc | (v & Hv & Hv0)]; [congruence |].
    rewrite Hv. cbn [map fdiv]. rewrite Reqb_false by assumption.
    eexists. do 2 f_equal. f_equal. unfold Rdiv. ring.
  - destruct (String.eqb_spec norm "amplitude") as [-> | Ha].
    + cbn [map fsqrt]. rewrite !Rltb_false by lra. cbn [fmul].
      eexists. do 2 f_equal. f_equal. rewrite sqrt_0. ring.
    + destruct (String.eqb_spec norm "density") as [-> | Hy].
      * cbn [map fsqrt]. rewrite Rltb_false by lra. unfold fsq. cbn [fmul].
        eexists. do 2 f_equal. f_equal. ring.
      * eexists. reflexivity.
Qed.

(** C8, amended: if the first value the kernel returns evaluates as false
    (is zero), [scargle] sets it to [0.] before normalising, and the first
    element of the returned statistic is [0.] under every norm other than
    ['distribution'], and under ['distribution'] when the variance of the
    signal is a non-zero number.  The time span is taken finite. *)
Theorem first_value_guard (g : namespace) (K : fortran)
  (times signal : array) (f0 fn df : float) (weights : option array)
  (norm : string) (T : R) (f1 : array) (x : float) (S : array) :
  np_ptp times = Ok (Fin T) ->
  scargle_kernel g K times signal f0 fn df weights = Ok (f1, x :: S) ->
  truthy x = false ->
  norm <> "distribution"%string
  \/ (exists v, np_var signal = Fin v /\ v <> 0) ->
  scargle_raw g K times signal f0 fn df weights = Ok (f1, Fin 0 :: S)
  /\ exists S',
      scargle g K times signal f0 fn df norm weights = Ok (f1, Fin 0 :: S').
Proof.
  intros HT Hk Hx Hnorm.
  assert (Hraw : scargle_raw g K times signal f0 fn df weights
                 = Ok (f1, Fin 0 :: S)).
  { unfold scargle_raw. rewrite Hk. cbn [bind].
    now rewrite fix_first_false by assumption. }
  split; [exact Hraw |].
  destruct (normalise_zero_first norm (length times) T signal S)
    as [S' HS']; [now apply (np_ptp_Ok_length times (Fin T)) | assumption |].
  exists S'. unfold scargle. rewrite HT. cbn [bind]. rewrite Hraw.
  cbn [bind]. now rewrite HS'.
Qed.

Lemma first_value_guard_witness :
  np_ptp [Fin 0; Fin 10] = Ok (Fin 10) /\
  truthy (Fin 0) = false /\
  "amplitude"%string <> "distribution"%string /\
  scargle_raw (module_globals Imported) idle_kernels [Fin 0; Fin 10]
              [Fin 1; Fin 2] (Fin 0) (Fin 1) (Fin 1) None
    = Ok ([Fin 0; Fin 0], [Fin 0; Fin 0])
  /\ exists S',
      scargle (module_globals Imported) idle_kernels [Fin 0; Fin 10]
              [Fin 1; Fin 2] (Fin 0) (Fin 1) (Fin 1) "amplitude" None
        = Ok ([Fin 0; Fin 0], Fin 0 :: S').
Proof.
  assert (Hx : truthy (Fin 0) = false) by (simpl; now rewrite Reqb_true).
  split; [exact np_ptp_0_10 |].
  split; [exact Hx |].
  split; [discriminate |].
  apply (first_value_guard (module_globals Imported) idle_kernels
           [Fin 0; Fin 10] [Fin 1; Fin 2] (Fin 0) (Fin 1) (Fin 1) None
           "amplitude" 10 [Fin 0; Fin 0] (Fin 0) [Fin 0]).
  - exact np_ptp_0_10.
  - apply idle_scargle_kernel_0_1_1.
  - exact Hx.
  - left. discriminate.
Defined.

(** A [NaN] in first place is true to Python and passes the guard. *)
Lemma fix_first_keeps_NaN (S : array) (v : float) :
  fix_first (NaN :: S) v = Ok (NaN :: S).
Proof. reflexivity. Qed.

(** ** The weighted branch of [scargle] *)

Lemma weighted_kernel_never_returns (K : fortran) (times signal : array)
  (f0 fn df : float) (w : array) :
  ~ returns (scargle_kernel (module_globals Imported) K times signal
                            f0 fn df (Some w)).
Proof.
  intros [r H]. unfold scargle_kernel in H.
  destruct (grid_size f0 fn df) as [nf |]; [| discriminate].
  cbn [bind] in H.
  destruct (np_zeros nf) as [z |]; discriminate.
Qed.

Lemma weighted_scargle_never_returns (K : fortran) (times signal : array)
  (f0 fn df : float) (norm : string) (w : array) :
  ~ returns (scargle (module_globals Imported) K times signal f0 fn df
                     norm (Some w)).
Proof.
  intros [r H]. unfold scargle, scargle_raw in H.
  destruct (np_ptp times) as [T |]; [| discriminate]. cbn [bind] in H.
  destruct (scargle_kernel (module_globals Imported) K times signal f0 fn df
              (Some w)) as [p |] eqn:Hk; [| discriminate].
  apply (weighted_kernel_never_returns K times signal f0 fn df w).
  rewrite Hk. now eexists.
Qed.

(** C9: in the imported module, [scargle] called with weights on a
    non-empty time array and a grid with [fn > f0] and [df > 0] raises
    [NameError] for [logger] (line 126) before the weighted kernel runs;
    and no call with weights, whatever its arguments, returns a
    periodogram. *)
Theorem weighted_scargle_NameError (K : fortran) (times signal : array)
  (f0 fn df : R) (norm : string) (w : array) :
  times <> [] -> f0 < fn -> 0 < df ->
  scargle (module_globals Imported) K times signal (Fin f0) (Fin fn) (Fin df)
          norm (Some w)
    = Err (NameError "logger")
  /\ forall K' times' signal' f0' fn' df' norm' w',
      ~ returns (scargle (module_globals Imported) K' times' signal'
                         f0' fn' df' norm' (Some w')).
Proof.
  intros Ht Hf Hd. split.
  - destruct (np_ptp_nonempty times Ht) as [T HT].
    pose proof (grid_size_positive f0 fn df Hf Hd) as Hpos.
    unfold scargle, scargle_raw, scargle_kernel. rewrite HT. cbn [bind].
    rewrite grid_size_valid by assumption. cbn [bind].
    rewrite np_zeros_Ok by lia. reflexivity.
  - intros. apply weighted_scargle_never_returns.
Qed.

Lemma weighted_scargle_NameError_witness :
  [Fin 0; Fin 10] <> [] /\ 0 < 10 /\ 0 < 1 /\
  scargle (module_globals Imported) idle_kernels [Fin 0; Fin 10]
          [Fin 1; Fin 2] (Fin 0) (Fin 10) (Fin 1) "amplitude"
          (Some [Fin 1; Fin 1])
    = Err (NameError "logger").
Proof.
  split; [discriminate |].
  split; [lra |].
  split; [lra |].
  apply (weighted_scargle_NameError idle_kernels [Fin 0; Fin 10]
           [Fin 1; Fin 2] 0 10 1 "amplitude" [Fin 1; Fin 1]).
  - discriminate.
  - lra.
  - lra.
Defined.

(** Run as a script, the file binds [logger] at line 812, and the
    weighted branch reaches its kernel. *)
Lemma weighted_kernel_reached_in_script (K : fortran) (times signal : array)
  (f0 fn df : R) (w : array) :
  f0 < fn -> 0 < df ->
  exists z,
    scargle_kernel (module_globals Script) K times signal
                   (Fin f0) (Fin fn) (Fin df) (Some w)
      = Ok (scar3 K signal times (Fin f0) (Fin df) z z z z z z w).
Proof.
  intros Hf Hd. pose proof (grid_size_positive f0 fn df Hf Hd) as Hpos.
  unfold scargle_kernel. rewrite grid_size_valid by assumption. cbn [bind].
  rewrite np_zeros_Ok by lia. eexists. reflexivity.
Qed.

(** ** The start frequency of [bls] *)

Lemma bls_f0_finite (T f0 : R) :
  T <> 0 ->
  bls_f0 (Fin T) (Fin f0) = Fin (if Rltb f0 (2 / T) then 2 / T else f0).
Proof.
  intros HT. unfold bls_f0. cbn [fdiv]. rewrite Reqb_false by assumption.
  cbn [flt]. now destruct (Rltb f0 (2 / T)).
Qed.

Lemma Rtrunc_ge (a : R) (k : Z) :
  (0 <= k)%Z -> IZR k <= a -> (k <= Rtrunc a)%Z.
Proof.
  intros Hk Ha. assert (0 <= a) by (apply IZR_le in Hk; lra).
  rewrite Rtrunc_floor by assumption.
  destruct (base_Int_part a) as [_ Hb].
  apply Z.lt_succ_r. apply lt_IZR. rewrite succ_IZR. lra.
Qed.

Lemma linspace_samples_head (a b : R) (n : Z) :
  (2 <= n)%Z -> exists rest, linspace_samples (Fin a) (Fin b) n = Fin a :: rest.
Proof.
  intros Hn. unfold linspace_samples, py_range.
  destruct (Z.to_nat n) as [| [| k]] eqn:Hk; try lia.
  assert (Hd : IZR (n - 1) <> 0) by (apply not_0_IZR; lia).
  cbn [seq map fsub fopp fadd fdiv of_Z fmul].
  rewrite Reqb_false by assumption. cbn [fmul fadd].
  set (f := fun i : Z => Fin (IZR i * ((b + - a) / IZR (n - 1)) + a)).
  change (removelast (?x :: ?y :: ?l)) with (x :: removelast (y :: l)).
  eexists. cbn [app]. f_equal. f_equal. simpl. ring.
Qed.

Lemma linspace_samples_last (start stop : float) (n : Z) :
  (2 <= n)%Z ->
  exists fr, linspace_samples start stop n = fr ++ [stop] /\ fr <> [].
Proof.
  intros Hn. unfold linspace_samples, py_range.
  destruct (Z.to_nat n) as [| [| k]] eqn:Hk; try lia.
  cbn [seq map].
  change (removelast (?x :: ?y :: ?l)) with (x :: removelast (y :: l)).
  eexists. split; [reflexivity | discriminate].
Qed.

(** The count of samples [np.linspace] takes from a finite float. *)
Lemma np_linspace_count (np : numpy_release) (start stop : float) (num : R) :
  np <> Numpy_1_18_on -> (2 <= Rtrunc num)%Z ->
  np_linspace np start stop (Fin num)
    = Ok (linspace_samples start stop (Rtrunc num)).
Proof.
  intros Hnp Hn. unfold np_linspace.
  destruct np; try contradiction; cbn [py_int bind].
  - destruct (Z.leb_spec (Rtrunc num) 0); [lia |].
    destruct (Z.eqb_spec (Rtrunc num) 1); [lia | reflexivity].
  - destruct (Z.ltb_spec (Rtrunc num) 0); [lia |].
    destruct (Z.eqb_spec (Rtrunc num) 0); [lia |].
    destruct (Z.eqb_spec (Rtrunc num) 1); [lia | reflexivity].
Qed.

Lemma np_linspace_head (np : numpy_release) (a b num : R) (fr : array)
  (x : float) (rest : array) :
  np_linspace np (Fin a) (Fin b) (Fin num) = Ok fr ->
  fr = x :: rest -> x = Fin a.
Proof.
  assert (Hone : (of_Z 0 * (Fin b - Fin a) + Fin a)%fl = Fin a)
    by (cbn; f_equal; ring).
  assert (Hmany : (2 <= Rtrunc num)%Z ->
                  Ok (linspace_samples (Fin a) (Fin b) (Rtrunc num)) = Ok fr ->
                  fr = x :: rest -> x = Fin a).
  { intros Hn [= <-] Hx.
    destruct (linspace_samples_head a b (Rtrunc num) Hn) as [r Hr].
    congruence. }
  unfold np_linspace. destruct np; try discriminate; cbn [py_int bind].
  - destruct (Z.leb_spec (Rtrunc num) 0); [intros [= <-]; discriminate |].
    destruct (Z.eqb_spec (Rtrunc num) 1).
    + intros [= <-] [= <- _]. reflexivity.
    + apply Hmany. lia.
  - destruct (Z.ltb_spec (Rtrunc num) 0); [discriminate |].
    destruct (Z.eqb_spec (Rtrunc num) 0); [intros [= <-]; discriminate |].
    destruct (Z.eqb_spec (Rtrunc num) 1).
    + rewrite Hone. intros [= <-] [= <- _]. reflexivity.
    + apply Hmany. lia.
Qed.

(** With a count of one or more, the releases that accept a float count
    return an array that starts at [start]. *)
Lemma np_linspace_starts (np : numpy_release) (a b num : R) :
  np <> Numpy_1_18_on -> 1 <= num ->
  exists rest, np_linspace np (Fin a) (Fin b) (Fin num) = Ok (Fin a :: rest).
Proof.
  intros Hnp Hnum.
  assert (Hn : (1 <= Rtrunc num)%Z) by (apply Rtrunc_ge; [lia | lra]).
  destruct (Z.eq_dec (Rtrunc num) 1) as [H1 | H1].
  - exists []. unfold np_linspace.
    destruct np; try contradiction; cbn [py_int bind]; rewrite H1.
    + reflexivity.
    + cbn. do 3 f_equal. ring.
  - rewrite np_linspace_count by (assumption || lia).
    destruct (linspace_samples_head a b (Rtrunc num)) as [rest Hr]; [lia |].
    exists rest. now rewrite Hr.
Qed.

(** C7: for times of span [T > 0] and [df <> 0], the start frequency
    [bls] works with is at least [2/T] and equals [2/T] whenever the
    requested [f0] is below [2/T].  Under the numpy releases whose
    [np.linspace] accepts the float count of line 746 (before 1.18), and
    with [(fn-f0)/df >= 1], the call returns; its frequency array is not
    empty and starts at that start frequency, and its statistic is the
    kernel's, computed from that start frequency.  Under every release,
    whenever the call returns, the statistic is that one and a first
    frequency, if there is one, is that start frequency. *)
Theorem bls_start_frequency (np : numpy_release) (K : fortran)
  (times signal : array) (f0 fn df : R) (nb : Z) (qmi qma : float) (T : R) :
  np_ptp times = Ok (Fin T) -> 0 < T -> df <> 0 ->
  let f0' := bls_f0 (Fin T) (Fin f0) in
  let n := length times in
  let zeros := repeat (Fin 0) n in
  let power :=
    let '(power, _, _, _, _) :=
      eebls K times signal zeros zeros (Fin ((fn - f0) / df)) f0'
            (Fin df) nb qmi qma n in
    power in
  fle (Fin 2 / Fin T)%fl f0' = true
  /\ (f0 < 2 / T -> f0' = Fin (2 / T))
  /\ (np <> Numpy_1_18_on -> 1 <= (fn - f0) / df ->
      exists rest,
        bls np K times signal (Fin f0) (Fin fn) (Fin df) nb qmi qma
          = Ok (f0' :: rest, power))
  /\ (forall fr pw,
         bls np K times signal (Fin f0) (Fin fn) (Fin df) nb qmi qma
           = Ok (fr, pw) ->
         pw = power /\ forall x rest, fr = x :: rest -> x = f0').
Proof.
  intros HT HTpos Hd f0' n zeros power.
  assert (HT0 : T <> 0) by lra.
  assert (Hf0' : f0' = Fin (if Rltb f0 (2 / T) then 2 / T else f0))
    by now apply bls_f0_finite.
  assert (Hbls : bls np K times signal (Fin f0) (Fin fn) (Fin df) nb qmi qma
                 = (frequencies <- np_linspace np f0' (Fin fn)
                                               (Fin ((fn - f0) / df)) ;;
                    Ok (frequencies, power))).
  { unfold bls. rewrite HT. cbn [bind].
    rewrite np_zeros_Ok by lia. cbn [bind]. rewrite Nat2Z.id.
    unfold py_div. rewrite Reqb_false by assumption.
    cbn [bind fsub fopp fadd fdiv]. rewrite Reqb_false by assumption.
    change (fn + - f0) with (fn - f0). fold n zeros f0'. unfold power.
    now destruct (eebls K times signal zeros zeros (Fin ((fn - f0) / df)) f0'
                        (Fin df) nb qmi qma n)
      as [[[[p depth] qtran] in1] in2]. }
  split; [| split; [| split]].
  - rewrite Hf0'. cbn [fdiv]. rewrite Reqb_false by assumption. cbn [fle].
    unfold Rltb. destruct (Rlt_dec f0 (2 / T)); apply Rleb_true; lra.
  - intros Hlt. rewrite Hf0'. now rewrite Rltb_true.
  - intros Hnp Hq. rewrite Hbls, Hf0'.
    destruct (np_linspace_starts np
                (if Rltb f0 (2 / T) then 2 / T else f0) fn
                ((fn - f0) / df) Hnp Hq) as [rest Hrest].
    rewrite Hrest. cbn [bind]. now exists rest.
  - intros fr pw H. rewrite Hbls in H.
    destruct (np_linspace np f0' (Fin fn) (Fin ((fn - f0) / df)))
      as [fr' |] eqn:Hfr; cbn [bind] in H; [| discriminate].
    injection H as <- <-. split; [reflexivity |].
    intros x rest Hx. rewrite Hf0' in Hfr |- *.
    eapply np_linspace_head; eassumption.
Qed.

Lemma bls_start_frequency_witness :
  np_ptp [Fin 0; Fin 10] = Ok (Fin 10) /\ 0 < 10 /\ 1 <> 0 /\
  Numpy_early <> Numpy_1_18_on /\ 1 <= (10 - 0) / 1 /\
  fle (Fin 2 / Fin 10)%fl (bls_f0 (Fin 10) (Fin 0)) = true /\
  bls_f0 (Fin 10) (Fin 0) = Fin (2 / 10) /\
  exists rest pw,
    bls Numpy_early idle_kernels [Fin 0; Fin 10] [Fin 1; Fin 2]
        (Fin 0) (Fin 10) (Fin 1) 50 (Fin 0.005) (Fin 0.75)
      = Ok (Fin (2 / 10) :: rest, pw).
Proof.
  assert (Hq : 1 <= (10 - 0) / 1) by lra.
  assert (Hnp : Numpy_early <> Numpy_1_18_on) by discriminate.
  split; [exact np_ptp_0_10 |].
  split; [lra |].
  split; [lra |].
  split; [exact Hnp |].
  split; [exact Hq |].
  destruct (bls_start_frequency Numpy_early idle_kernels
              [Fin 0; Fin 10] [Fin 1; Fin 2] 0 10 1 50 (Fin 0.005)
              (Fin 0.75) 10 np_ptp_0_10)
    as (Hge & Heq & Hret & _); [lra | lra |].
  assert (H02 : bls_f0 (Fin 10) (Fin 0) = Fin (2 / 10)) by (apply Heq; lra).
  split; [exact Hge |].
  split; [exact H02 |].
  destruct (Hret Hnp Hq) as [rest Hrest].
  rewrite H02 in Hrest. eexists rest, _. exact Hrest.
Defined.

(** ** [weightedpower] *)

Lemma zip_with_length {A B C : Type} (f : A -> B -> C) (a : list A)
  (b : list B) :
  length a = length b -> length (zip_with f a b) = length a.
Proof.
  revert b. induction a as [| x a IH]; intros [| y b]; simpl; intros H;
    try reflexivity; try discriminate.
  f_equal. apply IH. lia.
Qed.

Lemma zip_with_Fin (a b : list R) :
  zip_with fmul (map Fin a) (map Fin b) = map Fin (zip_with Rmult a b).
Proof.
  revert b. induction a as [| x a IH]; intros [| y b]; simpl;
    try reflexivity.
  now rewrite IH.
Qed.

Lemma broadcast2_Fin (a b : list R) :
  length a = length b ->
  broadcast2 fmul (map Fin a) (map Fin b)
    = Ok (map Fin (zip_with Rmult a b)).
Proof.
  intros H. unfold broadcast2. rewrite !length_map, H, Nat.eqb_refl.
  now rewrite zip_with_Fin.
Qed.

Section WeightedFit.

Variables ts ys ws : list R.
Hypothesis Hys : length ys = length ts.
Hypothesis Hws : length ws = length ts.

Lemma normal_sums_Fin (f : R) :
  normal_sums (map Fin ts) (map Fin ys) (map Fin ws) (Fin f)
    = Ok {| a11 := Fin (Sss ts ws f); a12 := Fin (Ssc ts ws f);
            a21 := Fin (Ssc ts ws f); a22 := Fin (Scc ts ws f);
            b1 := Fin (Sys ts ys ws f); b2 := Fin (Syc ts ys ws f) |}.
Proof.
  unfold normal_sums. rewrite angle_Fin, fsin_Fin, fcos_Fin.
  rewrite (map_map _ sin), (map_map _ cos).
  fold (sines ts f) (cosines ts f).
  assert (Hs : length (sines ts f) = length ts)
    by (unfold sines; now rewrite length_map).
  assert (Hc : length (cosines ts f) = length ts)
    by (unfold cosines; now rewrite length_map).
  repeat (rewrite broadcast2_Fin
            by (rewrite ?zip_with_length; congruence); cbn [bind]).
  rewrite !fsum_Fin. reflexivity.
Qed.

Lemma cramer_solves (f : R) :
  determinant ts ws f <> 0 ->
  solves_normal_equations ts ys ws f (fit_A ts ys ws f) (fit_B ts ys ws f).
Proof.
  intros Hd. unfold solves_normal_equations, fit_A, fit_B.
  unfold determinant in *. split; field; exact Hd.
Qed.

Lemma weightedpower_at (f : R) :
  exists p,
    (if negb (feqb (Fin f) (Fin 0)) then
       s <- normal_sums (map Fin ts) (map Fin ys) (map Fin ws) (Fin f) ;;
       Ok (coefA s * coefA s + coefB s * coefB s)%fl
     else
       Ok (fsum (map Fin ys) / of_nat (length (map Fin ys)))%fl) = Ok p
    /\ power_at ts ys ws f p.
Proof.
  cbn [feqb]. destruct (Req_dec_T f 0) as [Hf | Hf].
  - rewrite Reqb_true by assumption. cbn [negb].
    eexists. split; [reflexivity |]. split; [| contradiction].
    intros _ Hne. now apply np_mean_Fin.
  - rewrite Reqb_false by assumption. cbn [negb].
    rewrite normal_sums_Fin. cbn [bind].
    eexists. split; [reflexivity |]. split; [contradiction |].
    intros _ Hd. split; [now apply cramer_solves |].
    unfold coefA, coefB, denominator, fit_A, fit_B.
    cbn [a11 a12 a21 a22 b1 b2 fmul fsub fopp fadd fdiv].
    fold (Rminus (Sss ts ws f * Scc ts ws f) (Ssc ts ws f * Ssc ts ws f)).
    fold (determinant ts ws f).
    rewrite Reqb_false by assumption. cbn [fmul fadd]. reflexivity.
Qed.

End WeightedFit.

(** C5: on finite arrays [time], [signal], [weight] of equal length,
    [weightedpower] returns one value per frequency; at [f <> 0] with a
    non-zero denominator [a11*a22 - a12*a21] it is [A^2 + B^2] for the
    solution [(A, B)] of the weighted normal equations of the fit
    [A sin(2 pi f t) + B cos(2 pi f t)], and at [f = 0] it is the mean of
    the (non-empty) signal. *)
Theorem weightedpower_spec (ts ys ws fs : list R) :
  length ys = length ts -> length ws = length ts ->
  exists r,
    weightedpower (map Fin ts) (map Fin ys) (map Fin ws) (map Fin fs) = Ok r
    /\ Forall2 (power_at ts ys ws) fs r.
Proof.
  intros Hys Hws. unfold weightedpower.
  induction fs as [| f fs (r & Hr & IH)].
  - exists []. split; [reflexivity | constructor].
  - destruct (weightedpower_at ts ys ws Hys Hws f) as (p & Hp & Hpa).
    cbn [map mapM]. rewrite Hp. cbn [bind]. rewrite Hr. cbn [bind].
    exists (p :: r). split; [reflexivity | now constructor].
Qed.

Lemma quarter_turn_sines :
  sines [0; 1] 0.25 = [0; 1] /\ cosines [0; 1] 0.25 = [1; 0].
Proof.
  unfold sines, cosines. cbn [map].
  replace (2 * PI * 0.25 * 0) with 0 by lra.
  replace (2 * PI * 0.25 * 1) with (PI / 2) by lra.
  now rewrite sin_0, cos_0, sin_PI2, cos_PI2.
Qed.

Lemma weightedpower_spec_witness :
  length [1; 3] = length [0; 1] /\ length [1; 1] = length [0; 1] /\
  weightedpower (map Fin [0; 1]) (map Fin [1; 3]) (map Fin [1; 1])
                (map Fin [0; 0.25])
    = Ok [Fin 2; Fin 10].
Proof.
  split; [reflexivity |]. split; [reflexivity |].
  destruct (weightedpower_spec [0; 1] [1; 3] [1; 1] [0; 0.25]
              eq_refl eq_refl) as (r & Hr & Hall).
  rewrite Hr. f_equal.
  destruct quarter_turn_sines as [Hs Hc].
  inversion Hall as [| f0 p0 fs0 r0 [Hp0 _] Hrest]; subst.
  inversion Hrest as [| f1 p1 fs1 r1 [_ Hp1] Hnil]; subst.
  inversion Hnil; subst.
  assert (Hdet : determinant [0; 1] [1; 1] 0.25 = 1).
  { unfold determinant, Sss, Scc, Ssc. rewrite Hs, Hc. simpl. lra. }
  destruct Hp1 as [_ Hp1]; [lra | rewrite Hdet; lra |].
  rewrite Hp0 by (reflexivity || discriminate). rewrite Hp1.
  unfold fit_A, fit_B. rewrite Hdet.
  unfold Sys, Syc, Sss, Scc, Ssc, Rmean. rewrite Hs, Hc.
  f_equal; [| f_equal]; f_equal; simpl; lra.
Defined.

(** ** Scaling the signal in [pdm_py] *)

Lemma Rsum_map_scale {A : Type} (c : R) (g : A -> R) (l : list A) :
  Rsum (map (fun x => c * g x) l) = c * Rsum (map g l).
Proof.
  induction l as [| x l IH]; cbn [map Rsum fold_right].
  - ring.
  - fold (Rsum (map (fun x => c * g x) l)). fold (Rsum (map g l)).
    rewrite IH. ring.
Qed.

Lemma Rmean_scale (c : R) (l : list R) :
  Rmean (map (Rmult c) l) = c * Rmean l.
Proof.
  unfold Rmean. rewrite length_map.
  pose proof (Rsum_map_scale c (fun x => x) l) as H.
  cbn beta in H. rewrite map_id in H.
  change (map (Rmult c) l) with (map (fun x => c * x) l).
  rewrite H. unfold Rdiv. ring.
Qed.

Lemma Rvar_scale (c : R) (l : list R) :
  Rvar (map (Rmult c) l) = c * c * Rvar l.
Proof.
  unfold Rvar. rewrite Rmean_scale. unfold Rmean at 1 3.
  rewrite !length_map, map_map.
  rewrite (map_ext (fun x => (c * x - c * Rmean l) * (c * x - c * Rmean l))
                   (fun x => (c * c) * ((x - Rmean l) * (x - Rmean l))))
    by (intros; ring).
  rewrite (Rsum_map_scale (c * c)). unfold Rmean. rewrite length_map.
  unfold Rdiv. ring.
Qed.

Lemma np_compress_map {A B : Type} (f : A -> B) (cond : list bool)
  (a : list A) :
  np_compress cond (map f a)
    = match np_compress cond a with
      | Ok l => Ok (map f l)
      | Err e => Err e
      end.
Proof.
  revert a. induction cond as [| b cond IH]; intros a.
  - reflexivity.
  - destruct a as [| x a]; cbn [map np_compress].
    + destruct b; [reflexivity |]. apply (IH []).
    + rewrite IH. destruct (np_compress cond a) as [l |]; cbn [bind];
        [destruct b |]; reflexivity.
Qed.

Section Scaling.

Variable c : R.
Variables (binsize covershift : float) (phase : array) (ys : list R).

(** One bin: the accumulated sum for the signal scaled by [c] is [c^2]
    times the sum for the signal, and the count of empty bins is the
    same. *)
Lemma pdm_bin_scale (x : R) (e : Z) (kn : Z * Z) :
  match pdm_bin binsize covershift phase (map Fin ys) (Fin x, e) kn,
        pdm_bin binsize covershift phase (map Fin (map (Rmult c) ys))
                (Fin (c * c * x), e) kn with
  | Ok (t, e1), Ok (t', e2) =>
      exists x', t = Fin x' /\ t' = Fin (c * c * x') /\ e1 = e2
  | Err a, Err b => a = b
  | _, _ => False
  end.
Proof.
  destruct kn as [k n]. unfold pdm_bin.
  set (mask := bin_mask _ _ phase).
  rewrite (np_compress_map Fin mask (map (Rmult c) ys)).
  rewrite (np_compress_map (Rmult c) mask ys).
  rewrite (np_compress_map Fin mask ys).
  destruct (np_compress mask ys) as [l | err]; cbn [bind]; [| reflexivity].
  rewrite !length_map.
  destruct l as [| y l].
  - cbn [length Nat.eqb negb]. exists x. repeat split.
  - cbn [Nat.eqb negb].
    rewrite !np_var_Fin by discriminate. rewrite Rvar_scale.
    cbn [of_Z fmul fadd]. eexists. split; [reflexivity |].
    split; [| reflexivity]. f_equal. ring.
Qed.

Lemma pdm_bins_scale (l : list (Z * Z)) (x : R) (e : Z) :
  match foldM (pdm_bin binsize covershift phase (map Fin ys)) l (Fin x, e),
        foldM (pdm_bin binsize covershift phase
                       (map Fin (map (Rmult c) ys)))
              l (Fin (c * c * x), e) with
  | Ok (t, e1), Ok (t', e2) =>
      exists x', t = Fin x' /\ t' = Fin (c * c * x') /\ e1 = e2
  | Err a, Err b => a = b
  | _, _ => False
  end.
Proof.
  revert x e. induction l as [| kn l IH]; intros x e; cbn [foldM].
  - exists x. repeat split.
  - pose proof (pdm_bin_scale x e kn) as H.
    destruct (pdm_bin binsize covershift phase (map Fin ys) (Fin x, e) kn)
      as [[t e1] | a];
      destruct (pdm_bin binsize covershift phase
                        (map Fin (map (Rmult c) ys)) (Fin (c * c * x), e) kn)
        as [[t' e2] | b]; try contradiction; cbn [bind].
    + destruct H as (x' & -> & -> & ->). apply IH.
    + now subst.
Qed.

End Scaling.

Lemma inf_of_sign_scale (c x : R) :
  c <> 0 -> inf_of_sign (c * c * x) = inf_of_sign x.
Proof.
  intros Hc. assert (0 < c * c) by nra. unfold inf_of_sign, Rltb.
  destruct (Rlt_dec 0 (c * c * x)), (Rlt_dec 0 x),
    (Rlt_dec (c * c * x) 0), (Rlt_dec x 0); try reflexivity; exfalso; nra.
Qed.

Lemma fdiv_NaN (x : float) : (x / NaN)%fl = NaN.
Proof. now destruct x. Qed.

(** The two divisions of lines 668 and 672 cancel the factor [c^2]. *)
Lemma theta_ratio (c x : R) (d : Z) (v : R) :
  c <> 0 -> v <> 0 ->
  (Fin (c * c * x) / of_Z d / Fin (c * c * v))%fl
    = (Fin x / of_Z d / Fin v)%fl.
Proof.
  intros Hc Hv. assert (Hc2 : 0 < c * c) by nra.
  assert (Hcv : c * c * v <> 0) by nra.
  unfold of_Z. cbn [fdiv]. destruct (Req_dec_T (IZR d) 0) as [Hd | Hd].
  - rewrite !Reqb_true by assumption. rewrite inf_of_sign_scale by assumption.
    unfold inf_of_sign. destruct (Rltb 0 x); [| destruct (Rltb x 0)];
      cbn [fdiv]; try reflexivity;
      unfold Rltb; destruct (Rlt_dec (c * c * v) 0), (Rlt_dec v 0);
      try reflexivity; exfalso; nra.
  - rewrite !Reqb_false by assumption. cbn [fdiv].
    rewrite !Reqb_false by assumption. f_equal. field. repeat split; assumption.
Qed.

Section ScalingTheta.

Variable c : R.
Hypothesis Hc : c <> 0.
Variables (time : array) (ys : list R) (Nbin Ncover : Z) (D : float).
Variables binsize covershift : float.

Lemma pdm_theta_scale (f : float) :
  match pdm_theta time (map Fin ys) Nbin Ncover D binsize covershift f,
        pdm_theta time (map Fin (map (Rmult c) ys)) Nbin Ncover D
                  binsize covershift f with
  | Ok t, Ok t' =>
      exists x d,
        t = (Fin x / of_Z d)%fl /\ t' = (Fin (c * c * x) / of_Z d)%fl
  | Err a, Err b => a = b
  | _, _ => False
  end.
Proof.
  unfold pdm_theta. destruct (pdm_phase time D f) as [phase | err];
    cbn [bind]; [| reflexivity].
  pose proof (pdm_bins_scale c binsize covershift phase ys
                (bins Nbin Ncover) 0 0) as H.
  replace (c * c * 0) with 0 in H by ring.
  destruct (foldM (pdm_bin binsize covershift phase (map Fin ys))
              (bins Nbin Ncover) (Fin 0, 0%Z)) as [[t e1] | a];
    destruct (foldM (pdm_bin binsize covershift phase
                             (map Fin (map (Rmult c) ys)))
                (bins Nbin Ncover) (Fin 0, 0%Z)) as [[t' e2] | b];
    try contradiction; cbn [bind].
  - destruct H as (x' & -> & -> & ->). eexists _, _. split; reflexivity.
  - exact H.
Qed.

Hypothesis Hvar : np_var (map Fin ys) <> Fin 0.

Lemma np_var_scaled_ratio (x : R) (d : Z) :
  (Fin (c * c * x) / of_Z d / np_var (map Fin (map (Rmult c) ys)))%fl
    = (Fin x / of_Z d / np_var (map Fin ys))%fl.
Proof.
  destruct ys as [| y l].
  - cbn [map]. rewrite np_var_empty. now rewrite !fdiv_NaN.
  - rewrite !np_var_Fin in * by discriminate. rewrite Rvar_scale.
    apply theta_ratio; [assumption | congruence].
Qed.

Lemma pdm_thetas_scale (freq : array) :
  match mapM (pdm_theta time (map Fin ys) Nbin Ncover D binsize covershift)
             freq,
        mapM (pdm_theta time (map Fin (map (Rmult c) ys)) Nbin Ncover D
                        binsize covershift)
             freq
  with
  | Ok r, Ok r' =>
      map (fun t => (t / np_var (map Fin (map (Rmult c) ys)))%fl) r'
        = map (fun t => (t / np_var (map Fin ys))%fl) r
  | Err a, Err b => a = b
  | _, _ => False
  end.
Proof.
  induction freq as [| f freq IH]; cbn [mapM].
  - reflexivity.
  - pose proof (pdm_theta_scale f) as H.
    destruct (pdm_theta time (map Fin ys) Nbin Ncover D binsize covershift f)
      as [t | a];
      destruct (pdm_theta time (map Fin (map (Rmult c) ys)) Nbin Ncover D
                          binsize covershift f)
        as [t' | b]; try contradiction; cbn [bind]; [| exact H].
    destruct (mapM (pdm_theta time (map Fin ys) Nbin Ncover D binsize
                              covershift) freq) as [r | a];
      destruct (mapM (pdm_theta time (map Fin (map (Rmult c) ys)) Nbin
                                Ncover D binsize covershift) freq)
        as [r' | b]; try contradiction; cbn [bind]; [| exact IH].
    destruct H as (x & d & -> & ->). cbn [map].
    now rewrite IH, np_var_scaled_ratio.
Qed.

End ScalingTheta.

(** C6: for a finite signal of non-zero variance and a non-zero constant
    [c], [pdm_py] gives for the signal [c * s] what it gives for [s]: the
    same frequencies and the same theta array (or the same exception),
    whatever the times, the grid, [Nbin], [Ncover] and [D]. *)
Theorem pdm_py_scale_invariant (time : array) (ys : list R)
  (f0 fn df : float) (Nbin Ncover : Z) (D : float) (c : R) :
  c <> 0 ->
  np_var (map Fin ys) <> Fin 0 ->
  pdm_py time (map Fin (map (Rmult c) ys)) f0 fn df Nbin Ncover D
    = pdm_py time (map Fin ys) f0 fn df Nbin Ncover D.
Proof.
  intros Hc Hv. unfold pdm_py.
  destruct (np_arange f0 (fn + df)%fl df) as [freq |]; cbn [bind];
    [| reflexivity].
  destruct (py_div (Fin 1) (of_Z Nbin)) as [binsize |]; cbn [bind];
    [| reflexivity].
  destruct (py_div (Fin 1) (of_Z (Nbin * Ncover))) as [covershift |];
    cbn [bind]; [| reflexivity].
  pose proof (pdm_thetas_scale c Hc time ys Nbin Ncover D binsize covershift
                Hv freq) as H.
  destruct (mapM (pdm_theta time (map Fin ys) Nbin Ncover D binsize
                    covershift) freq) as [r | a];
    destruct (mapM (pdm_theta time (map Fin (map (Rmult c) ys)) Nbin Ncover D
                      binsize covershift) freq) as [r' | b];
    try contradiction; cbn [bind].
  - now rewrite H.
  - now subst.
Qed.

Lemma Rvar_1_3 : Rvar [1; 3] = 1.
Proof. unfold Rvar, Rmean. simpl. lra. Qed.

Lemma pdm_py_scale_invariant_witness :
  2 <> 0 /\ np_var (map Fin [1; 3]) <> Fin 0 /\
  exists r,
    pdm_py [Fin 0; Fin 1] (map Fin [1; 3]) (Fin 1) (Fin 2) (Fin 1) 5 2 (Fin 0)
      = Ok r
    /\ pdm_py [Fin 0; Fin 1] (map Fin (map (Rmult 2) [1; 3]))
              (Fin 1) (Fin 2) (Fin 1) 5 2 (Fin 0)
       = Ok r.
Proof.
  assert (Hv : np_var (map Fin [1; 3]) <> Fin 0).
  { rewrite np_var_Fin by discriminate. rewrite Rvar_1_3.
    intros [= H]. lra. }
  split; [lra |]. split; [exact Hv |].
  destruct (pdm_py_returns [Fin 0; Fin 1] (map Fin [1; 3]) 1 2 1 5 2 (Fin 0))
    as [r Hr]; try discriminate; try reflexivity; try lra.
  exists r. split; [exact Hr |].
  rewrite (pdm_py_scale_invariant [Fin 0; Fin 1] [1; 3] (Fin 1) (Fin 2)
             (Fin 1) 5 2 (Fin 0) 2); [exact Hr | lra | exact Hv].
Defined.

(** * Further properties *)

(** ** The window function *)

Lemma windowfunction_empty_times (freq : array) :
  windowfunction [] freq = repeat NaN (length freq).
Proof.
  unfold windowfunction. rewrite map_map, <- map_const.
  apply map_ext. intros f.
  unfold angle, fsum, fsq, of_nat. cbn.
  rewrite Reqb_true by ring. unfold inf_of_sign.
  now rewrite !Rltb_false by lra.
Qed.

(** The sum of [n] unit vectors has length at most [n]. *)
Lemma unit_vectors_sum (l : list R) :
  Rsqr (Rsum (map cos l)) + Rsqr (Rsum (map sin l)) <= Rsqr (INR (length l)).
Proof.
  induction l as [| a l IH].
  - simpl. unfold Rsqr. lra.
  - cbn [map Rsum fold_right length].
    fold (Rsum (map cos l)) (Rsum (map sin l)).
    rewrite S_INR. unfold Rsqr in *.
    pose proof (pos_INR (length l)) as Hn.
    pose proof (sin2_cos2 a) as Hu. unfold Rsqr in Hu.
    set (C := Rsum (map cos l)) in *. set (S := Rsum (map sin l)) in *.
    set (n := INR (length l)) in *.
    assert (Hcs : C * cos a + S * sin a <= n).
    { destruct (Rle_dec (C * cos a + S * sin a) 0) as [Hneg | Hpos];
        [lra |].
      assert (Hsq : (C * cos a + S * sin a) * (C * cos a + S * sin a)
                    <= n * n).
      { assert (Hlag : (C * cos a + S * sin a) * (C * cos a + S * sin a)
                       + (C * sin a - S * cos a) * (C * sin a - S * cos a)
                       = (C * C + S * S) * (sin a * sin a + cos a * cos a))
          by ring.
        rewrite Hu, Rmult_1_r in Hlag.
        pose proof (Rle_0_sqr (C * sin a - S * cos a)) as Hq.
        unfold Rsqr in Hq. lra. }
      nra. }
    nra.
Qed.

Lemma window_value_bounds (ts : list R) (f : R) :
  ts <> [] -> 0 <= window_value ts f <= 1.
Proof.
  intros Hne. pose proof (INR_length_pos ts Hne) as Hn.
  unfold window_value.
  pose proof (unit_vectors_sum (map (fun t => 2 * PI * f * t) ts)) as H.
  rewrite !map_map, length_map in H.
  assert (Hd : 0 < Rsqr (INR (length ts))) by (unfold Rsqr; nra).
  split.
  - apply Rmult_le_pos; [| left; now apply Rinv_0_lt_compat].
    apply Rplus_le_le_0_compat; apply Rle_0_sqr.
  - apply Rmult_le_reg_r with (Rsqr (INR (length ts))); [exact Hd |].
    unfold Rdiv. rewrite Rmult_assoc, Rinv_l, Rmult_1_r, Rmult_1_l by lra.
    exact H.
Qed.

(** X1: on a non-empty array of finite times every value of the window
    function is a number between 0 and 1. *)
Theorem windowfunction_bounded (ts fs : list R) :
  ts <> [] ->
  Forall (fun w => exists v, w = Fin v /\ 0 <= v <= 1)
         (windowfunction (map Fin ts) (map Fin fs)).
Proof.
  intros Hne. rewrite windowfunction_Fin by assumption.
  apply Forall_map, Forall_forall. intros f _.
  exists (window_value ts f). split; [reflexivity |].
  now apply window_value_bounds.
Qed.

Lemma windowfunction_bounded_witness :
  [0; 1; 3] <> [] /\
  Forall (fun w => exists v, w = Fin v /\ 0 <= v <= 1)
         (windowfunction (map Fin [0; 1; 3]) (map Fin [0.1; 0.2])).
Proof.
  split; [discriminate |].
  apply (windowfunction_bounded [0; 1; 3] [0.1; 0.2]). discriminate.
Defined.

Lemma window_value_even (ts : list R) (f : R) :
  window_value ts (- f) = window_value ts f.
Proof.
  unfold window_value.
  rewrite (map_ext (fun t => cos (2 * PI * - f * t))
                   (fun t => cos (2 * PI * f * t))).
  2:{ intros t. replace (2 * PI * - f * t) with (- (2 * PI * f * t)) by ring.
      apply cos_neg. }
  rewrite (map_ext (fun t => sin (2 * PI * - f * t))
                   (fun t => -1 * sin (2 * PI * f * t))).
  2:{ intros t. replace (2 * PI * - f * t) with (- (2 * PI * f * t)) by ring.
      rewrite sin_neg. ring. }
  rewrite (Rsum_map_scale (-1)). unfold Rsqr. f_equal. ring.
Qed.

(** X2: the window function is even in the frequency: the frequencies
    [-f] give the values of the frequencies [f]. *)
Theorem windowfunction_even (ts fs : list R) :
  windowfunction (map Fin ts) (map Fin (map Ropp fs))
    = windowfunction (map Fin ts) (map Fin fs).
Proof.
  destruct ts as [| t ts].
  - cbn [map]. now rewrite !windowfunction_empty_times, !length_map.
  - rewrite !windowfunction_Fin by discriminate. rewrite map_map.
    apply map_ext. intros f. now rewrite window_value_even.
Qed.

Lemma Rsum_map_lin {A : Type} (a b : R) (g h : A -> R) (l : list A) :
  Rsum (map (fun x => a * g x + b * h x) l)
    = a * Rsum (map g l) + b * Rsum (map h l).
Proof.
  induction l as [| x l IH]; cbn [map Rsum fold_right].
  - ring.
  - fold (Rsum (map (fun x => a * g x + b * h x) l)).
    fold (Rsum (map g l)) (Rsum (map h l)). rewrite IH. ring.
Qed.

Lemma window_value_shift (t0 : R) (ts : list R) (f : R) :
  window_value (map (Rplus t0) ts) f = window_value ts f.
Proof.
  unfold window_value. rewrite !map_map, length_map.
  set (p := 2 * PI * f * t0).
  rewrite (map_ext (fun t => cos (2 * PI * f * (t0 + t)))
             (fun t => cos p * cos (2 * PI * f * t)
                       + - sin p * sin (2 * PI * f * t))).
  2:{ intros t. replace (2 * PI * f * (t0 + t)) with (p + 2 * PI * f * t)
        by (unfold p; ring).
      rewrite cos_plus. ring. }
  rewrite (map_ext (fun t => sin (2 * PI * f * (t0 + t)))
             (fun t => sin p * cos (2 * PI * f * t)
                       + cos p * sin (2 * PI * f * t))).
  2:{ intros t. replace (2 * PI * f * (t0 + t)) with (p + 2 * PI * f * t)
        by (unfold p; ring).
      rewrite sin_plus. ring. }
  rewrite !Rsum_map_lin. f_equal. unfold Rsqr.
  pose proof (sin2_cos2 p) as Hu. unfold Rsqr in Hu.
  set (C := Rsum (map (fun t => cos (2 * PI * f * t)) ts)).
  set (S := Rsum (map (fun t => sin (2 * PI * f * t)) ts)).
  replace ((cos p * C + - sin p * S) * (cos p * C + - sin p * S)
           + (sin p * C + cos p * S) * (sin p * C + cos p * S))
    with ((C * C + S * S) * (sin p * sin p + cos p * cos p)) by ring.
  rewrite Hu. ring.
Qed.

(** X3: the window function depends on time differences only: adding one
    constant to every time leaves every value unchanged. *)
Theorem windowfunction_shift (t0 : R) (ts fs : list R) :
  windowfunction (map Fin (map (Rplus t0) ts)) (map Fin fs)
    = windowfunction (map Fin ts) (map Fin fs).
Proof.
  destruct ts as [| t ts].
  - reflexivity.
  - rewrite !windowfunction_Fin by discriminate.
    apply map_ext. intros f. f_equal. apply window_value_shift.
Qed.

(** X4: on an empty time array the window function raises nothing and
    returns [NaN] at every frequency (the normalisation is [0/0]); in
    every case it returns one value per frequency. *)
Theorem windowfunction_shape (time freq : array) :
  length (windowfunction time freq) = length freq
  /\ windowfunction [] freq = repeat NaN (length freq).
Proof.
  split.
  - unfold windowfunction. now rewrite !length_map.
  - apply windowfunction_empty_times.
Qed.

(** ** The weighted sine fit *)

Lemma broadcast2_mismatch {A B C : Type} (f : A -> B -> C) (a : list A)
  (b : list B) :
  length a <> length b -> length a <> 1%nat -> length b <> 1%nat ->
  broadcast2 f a b = Err ValueError.
Proof.
  intros Hab Ha Hb. unfold broadcast2.
  destruct (Nat.eqb_spec (length a) (length b)) as [He | _]; [contradiction |].
  destruct a as [| x [| x' a]]; destruct b as [| y [| y' b]];
    simpl in *; try reflexivity; contradiction.
Qed.

(** X5: [weightedpower] checks the array shapes only where it fits a
    sinusoid.  If [weight] and [time] differ in length and neither has
    length one, a non-zero first frequency raises [ValueError]; at the
    frequency [0.0] alone the call returns the mean of the signal
    whatever the shapes. *)
Theorem weightedpower_shapes (time signal weight : array) (f : float)
  (freq : array) :
  length weight <> length time ->
  length weight <> 1%nat -> length time <> 1%nat ->
  feqb f (Fin 0) = false ->
  weightedpower time signal weight (f :: freq) = Err ValueError
  /\ weightedpower time signal weight [Fin 0] = Ok [np_mean signal].
Proof.
  intros Hl Hw Ht Hf. split.
  - unfold weightedpower. cbn [mapM]. rewrite Hf. cbn [negb].
    unfold normal_sums.
    rewrite broadcast2_mismatch; [reflexivity | | assumption |];
      unfold angle; now rewrite !length_map.
  - unfold weightedpower. cbn [mapM feqb].
    rewrite Reqb_true by reflexivity. reflexivity.
Qed.

Lemma weightedpower_shapes_witness :
  length [Fin 1; Fin 1] <> length [Fin 0; Fin 1; Fin 2] /\
  feqb (Fin 0.5) (Fin 0) = false /\
  weightedpower [Fin 0; Fin 1; Fin 2] [Fin 1; Fin 2; Fin 3] [Fin 1; Fin 1]
                [Fin 0.5] = Err ValueError
  /\ weightedpower [Fin 0; Fin 1; Fin 2] [Fin 1; Fin 2; Fin 3]
                   [Fin 1; Fin 1] [Fin 0]
     = Ok [np_mean [Fin 1; Fin 2; Fin 3]].
Proof.
  assert (Hf : feqb (Fin 0.5) (Fin 0) = false)
    by (cbn [feqb]; apply Reqb_false; lra).
  split; [discriminate |]. split; [exact Hf |].
  apply (weightedpower_shapes [Fin 0; Fin 1; Fin 2] [Fin 1; Fin 2; Fin 3]
           [Fin 1; Fin 1] (Fin 0.5) []); try discriminate. exact Hf.
Defined.

Lemma zip_with_scale (k : R) (l b : list R) :
  zip_with Rmult (map (Rmult k) l) b = map (Rmult k) (zip_with Rmult l b).
Proof.
  revert b. induction l as [| x l IH]; intros [| y b]; cbn [map zip_with];
    try reflexivity.
  rewrite IH. f_equal. ring.
Qed.

Lemma Rsum_scale (k : R) (l : list R) : Rsum (map (Rmult k) l) = k * Rsum l.
Proof.
  pose proof (Rsum_map_scale k (fun x => x) l) as H.
  cbn beta in H. rewrite map_id in H. exact H.
Qed.

Lemma weighted_sum_scale (k : R) (ws a b : list R) :
  Rsum (zip_with Rmult (zip_with Rmult (map (Rmult k) ws) a) b)
    = k * Rsum (zip_with Rmult (zip_with Rmult ws a) b).
Proof. now rewrite !zip_with_scale, Rsum_scale. Qed.

Lemma fdiv_scaled (c x d : R) :
  c <> 0 -> (Fin (c * c * x) / Fin (c * c * d))%fl = (Fin x / Fin d)%fl.
Proof.
  intros Hc. assert (Hc2 : 0 < c * c) by nra. cbn [fdiv].
  destruct (Req_dec_T d 0) as [Hd | Hd].
  - rewrite !Reqb_true by (subst; ring). now apply inf_of_sign_scale.
  - rewrite !Reqb_false by nra. f_equal. field. split; assumption.
Qed.

Section WeightScale.

Variables (ts ys ws : list R) (k : R).
Hypothesis Hys : length ys = length ts.
Hypothesis Hws : length ws = length ts.
Hypothesis Hk : k <> 0.

Lemma scaled_weights_fit (f : R) :
  (s <- normal_sums (map Fin ts) (map Fin ys) (map Fin (map (Rmult k) ws))
                    (Fin f) ;;
   Ok (coefA s * coefA s + coefB s * coefB s)%fl)
  = (s <- normal_sums (map Fin ts) (map Fin ys) (map Fin ws) (Fin f) ;;
     Ok (coefA s * coefA s + coefB s * coefB s)%fl).
Proof.
  rewrite (normal_sums_Fin ts ys (map (Rmult k) ws))
    by (rewrite ?length_map; assumption).
  rewrite (normal_sums_Fin ts ys ws) by assumption. cbn [bind].
  unfold Sss, Ssc, Scc, Sys, Syc. rewrite !weighted_sum_scale.
  set (a := Rsum (zip_with Rmult (zip_with Rmult ws (sines ts f))
                           (sines ts f))).
  set (b := Rsum (zip_with Rmult (zip_with Rmult ws (sines ts f))
                           (cosines ts f))).
  set (d := Rsum (zip_with Rmult (zip_with Rmult ws (cosines ts f))
                           (cosines ts f))).
  set (u := Rsum (zip_with Rmult (zip_with Rmult ws ys) (sines ts f))).
  set (v := Rsum (zip_with Rmult (zip_with Rmult ws ys) (cosines ts f))).
  unfold coefA, coefB, denominator.
  cbn [a11 a12 a21 a22 b1 b2 fmul fsub fopp fadd].
  replace (k * u * (k * d) + - (k * v * (k * b)))
    with (k * k * (u * d + - (v * b))) by ring.
  replace (k * v * (k * a) + - (k * u * (k * b)))
    with (k * k * (v * a + - (u * b))) by ring.
  replace (k * a * (k * d) + - (k * b * (k * b)))
    with (k * k * (a * d + - (b * b))) by ring.
  now rewrite !fdiv_scaled by assumption.
Qed.

End WeightScale.

(** X6: only the relative weights matter to [weightedpower]: on finite
    arrays of equal length, multiplying every weight by one non-zero
    constant changes no returned value. *)
Theorem weightedpower_weight_scale (ts ys ws fs : list R) (k : R) :
  length ys = length ts -> length ws = length ts -> k <> 0 ->
  weightedpower (map Fin ts) (map Fin ys) (map Fin (map (Rmult k) ws))
                (map Fin fs)
    = weightedpower (map Fin ts) (map Fin ys) (map Fin ws) (map Fin fs).
Proof.
  intros Hys Hws Hk. unfold weightedpower.
  induction fs as [| f fs IH]; [reflexivity |].
  cbn [map mapM]. rewrite IH.
  destruct (negb (feqb (Fin f) (Fin 0))); [| reflexivity].
  now rewrite scaled_weights_fit.
Qed.

Lemma weightedpower_weight_scale_witness :
  length [1; 3] = length [0; 1] /\ length [1; 1] = length [0; 1] /\
  5 <> 0 /\
  weightedpower (map Fin [0; 1]) (map Fin [1; 3])
                (map Fin (map (Rmult 5) [1; 1])) (map Fin [0; 0.25])
    = weightedpower (map Fin [0; 1]) (map Fin [1; 3]) (map Fin [1; 1])
                    (map Fin [0; 0.25]).
Proof.
  split; [reflexivity |]. split; [reflexivity |]. split; [lra |].
  apply (weightedpower_weight_scale [0; 1] [1; 3] [1; 1] [0; 0.25] 5);
    [reflexivity | reflexivity | lra].
Defined.

Lemma zip_with_scale_r (c : R) (l b : list R) :
  zip_with Rmult l (map (Rmult c) b) = map (Rmult c) (zip_with Rmult l b).
Proof.
  revert b. induction l as [| x l IH]; intros [| y b]; cbn [map zip_with];
    try reflexivity.
  rewrite IH. f_equal. ring.
Qed.

Lemma inf_of_sign_square (c x : R) :
  c <> 0 ->
  (inf_of_sign (c * x) * inf_of_sign (c * x))%fl
    = (inf_of_sign x * inf_of_sign x)%fl.
Proof.
  intros Hc. unfold inf_of_sign, Rltb.
  destruct (Rlt_dec 0 x), (Rlt_dec x 0); try lra;
    destruct (Rlt_dec 0 (c * x)), (Rlt_dec (c * x) 0);
    try reflexivity; exfalso; nra.
Qed.

Lemma square_is_PInf_or_NaN (x : R) :
  (inf_of_sign x * inf_of_sign x)%fl = PInf
  \/ (inf_of_sign x * inf_of_sign x)%fl = NaN.
Proof.
  unfold inf_of_sign. destruct (Rltb 0 x); [now left |].
  destruct (Rltb x 0); [now left | now right].
Qed.

(** The sum of the two squared coefficients is homogeneous of degree two
    in the right-hand sides, also where the denominator vanishes. *)
Lemma squares_scale (c x y d : R) :
  c <> 0 ->
  (Fin (c * x) / Fin d * (Fin (c * x) / Fin d)
   + Fin (c * y) / Fin d * (Fin (c * y) / Fin d))%fl
  = (Fin (c * c)
     * (Fin x / Fin d * (Fin x / Fin d) + Fin y / Fin d * (Fin y / Fin d)))%fl.
Proof.
  intros Hc. assert (Hc2 : 0 < c * c) by nra. cbn [fdiv].
  destruct (Req_dec_T d 0) as [Hd | Hd].
  - rewrite !Reqb_true by assumption.
    rewrite !inf_of_sign_square by assumption.
    assert (Hp : inf_of_sign (c * c) = PInf).
    { unfold inf_of_sign. now rewrite Rltb_true. }
    destruct (square_is_PInf_or_NaN x) as [-> | ->],
      (square_is_PInf_or_NaN y) as [-> | ->]; cbn [fadd fmul];
      rewrite ?Hp; reflexivity.
  - rewrite !Reqb_false by assumption. cbn [fmul fadd]. f_equal. field.
    assumption.
Qed.

(** X7: at non-zero frequencies the weighted power is quadratic in the
    signal: on finite arrays of equal length, multiplying the signal by a
    non-zero constant [c] multiplies every returned value by [c^2]. *)
Theorem weightedpower_signal_scale (ts ys ws fs : list R) (c : R) :
  length ys = length ts -> length ws = length ts -> c <> 0 ->
  Forall (fun f => f <> 0) fs ->
  weightedpower (map Fin ts) (map Fin (map (Rmult c) ys)) (map Fin ws)
                (map Fin fs)
    = match weightedpower (map Fin ts) (map Fin ys) (map Fin ws)
                          (map Fin fs) with
      | Ok r => Ok (map (fmul (Fin (c * c))) r)
      | Err e => Err e
      end.
Proof.
  intros Hys Hws Hc Hfs. unfold weightedpower.
  induction Hfs as [| f fs Hf Hfs IH]; [reflexivity |].
  cbn [map mapM feqb]. rewrite Reqb_false by assumption. cbn [negb].
  rewrite (normal_sums_Fin ts (map (Rmult c) ys) ws)
    by (rewrite ?length_map; assumption).
  rewrite (normal_sums_Fin ts ys ws) by assumption. cbn [bind].
  rewrite IH. clear IH.
  destruct (mapM _ (map Fin fs)) as [r |]; cbn [bind]; [| reflexivity].
  cbn [map]. do 2 f_equal.
  unfold Sys, Syc. rewrite !zip_with_scale_r, !zip_with_scale, !Rsum_scale.
  unfold coefA, coefB, denominator.
  cbn [a11 a12 a21 a22 b1 b2 fmul fsub fopp fadd].
  match goal with
  | |- context [Fin (c * ?u * ?d + - (c * ?v * ?b))] =>
      replace (c * u * d + - (c * v * b)) with (c * (u * d + - (v * b)))
        by ring
  end.
  match goal with
  | |- context [Fin (c * ?v * ?a + - (c * ?u * ?b))] =>
      replace (c * v * a + - (c * u * b)) with (c * (v * a + - (u * b)))
        by ring
  end.
  now apply squares_scale.
Qed.

Lemma weightedpower_signal_scale_witness :
  length [1; 3] = length [0; 1] /\ length [1; 1] = length [0; 1] /\
  2 <> 0 /\ Forall (fun f => f <> 0) [0.25] /\
  weightedpower (map Fin [0; 1]) (map Fin (map (Rmult 2) [1; 3]))
                (map Fin [1; 1]) (map Fin [0.25])
    = match weightedpower (map Fin [0; 1]) (map Fin [1; 3]) (map Fin [1; 1])
                          (map Fin [0.25]) with
      | Ok r => Ok (map (fmul (Fin (2 * 2))) r)
      | Err e => Err e
      end.
Proof.
  assert (Hf : Forall (fun f => f <> 0) [0.25])
    by (constructor; [lra | constructor]).
  split; [reflexivity |]. split; [reflexivity |]. split; [lra |].
  split; [exact Hf |].
  apply (weightedpower_signal_scale [0; 1] [1; 3] [1; 1] [0.25] 2);
    [reflexivity | reflexivity | lra | exact Hf].
Defined.

(** ** Phase dispersion minimisation *)

Lemma Rmean_shift (b : R) (l : list R) :
  l <> [] -> Rmean (map (Rplus b) l) = b + Rmean l.
Proof.
  intros Hne. pose proof (INR_length_pos l Hne) as Hn.
  unfold Rmean. rewrite length_map.
  pose proof (Rsum_map_lin b 1 (fun _ => 1) (fun x => x) l) as H.
  cbn beta in H. rewrite map_id, map_const, Rsum_repeat in H.
  rewrite (map_ext (Rplus b) (fun x => b * 1 + 1 * x)) by (intros; ring).
  rewrite H. field. lra.
Qed.

Lemma Rvar_shift (b : R) (l : list R) :
  l <> [] -> Rvar (map (Rplus b) l) = Rvar l.
Proof.
  intros Hne. unfold Rvar. rewrite Rmean_shift by assumption.
  set (m := Rmean l). unfold Rmean. rewrite !length_map, map_map.
  do 2 f_equal. apply map_ext. intros x. ring.
Qed.

Lemma np_var_shift (b : R) (l : list R) :
  np_var (map Fin (map (Rplus b) l)) = np_var (map Fin l).
Proof.
  destruct l as [| x l]; [reflexivity |].
  rewrite !np_var_Fin by discriminate. now rewrite Rvar_shift by discriminate.
Qed.

Lemma foldM_ext {A B : Type} (f g : B -> A -> result B) (l : list A) (b : B) :
  (forall b a, f b a = g b a) -> foldM f l b = foldM g l b.
Proof.
  intros H. revert b. induction l as [| a l IH]; intros b; cbn [foldM].
  - reflexivity.
  - rewrite H. destruct (g b a); cbn [bind]; [apply IH | reflexivity].
Qed.

Lemma mapM_ext {A B : Type} (f g : A -> result B) (l : list A) :
  (forall a, f a = g a) -> mapM f l = mapM g l.
Proof.
  intros H. induction l as [| a l IH]; cbn [mapM]; [reflexivity |].
  now rewrite H, IH.
Qed.

Lemma pdm_bin_shift (b : R) (binsize covershift : float) (phase : array)
  (ys : list R) (acc : float * Z) (kn : Z * Z) :
  pdm_bin binsize covershift phase (map Fin (map (Rplus b) ys)) acc kn
    = pdm_bin binsize covershift phase (map Fin ys) acc kn.
Proof.
  destruct acc as [theta Nempty], kn as [k n]. unfold pdm_bin.
  set (mask := bin_mask _ _ phase).
  rewrite (np_compress_map Fin mask (map (Rplus b) ys)).
  rewrite (np_compress_map (Rplus b) mask ys).
  rewrite (np_compress_map Fin mask ys).
  destruct (np_compress mask ys) as [l | err]; cbn [bind]; [| reflexivity].
  now rewrite !length_map, np_var_shift.
Qed.

(** X8: [pdm_py] ignores a constant offset of the signal: adding one
    constant to every finite signal value gives the same frequencies and
    the same theta array (or the same exception), whatever the other
    arguments. *)
Theorem pdm_py_offset_invariant (time : array) (ys : list R)
  (f0 fn df : float) (Nbin Ncover : Z) (D : float) (b : R) :
  pdm_py time (map Fin (map (Rplus b) ys)) f0 fn df Nbin Ncover D
    = pdm_py time (map Fin ys) f0 fn df Nbin Ncover D.
Proof.
  unfold pdm_py.
  destruct (np_arange f0 (fn + df)%fl df) as [freq |]; cbn [bind];
    [| reflexivity].
  destruct (py_div (Fin 1) (of_Z Nbin)) as [binsize |]; cbn [bind];
    [| reflexivity].
  destruct (py_div (Fin 1) (of_Z (Nbin * Ncover))) as [covershift |];
    cbn [bind]; [| reflexivity].
  rewrite np_var_shift.
  rewrite (mapM_ext
             (pdm_theta time (map Fin (map (Rplus b) ys)) Nbin Ncover D
                        binsize covershift)
             (pdm_theta time (map Fin ys) Nbin Ncover D binsize covershift));
    [reflexivity |].
  intros f. unfold pdm_theta.
  destruct (pdm_phase time D f) as [phase |]; cbn [bind]; [| reflexivity].
  rewrite (foldM_ext
             (pdm_bin binsize covershift phase
                      (map Fin (map (Rplus b) ys)))
             (pdm_bin binsize covershift phase (map Fin ys)));
    [reflexivity |].
  intros acc kn. apply pdm_bin_shift.
Qed.

Lemma Rceil_ge_1 (x : R) : 1 <= x -> (1 <= Rceil x)%Z.
Proof.
  intros Hx. unfold Rceil. destruct (base_Int_part (- x)) as [Hle _].
  assert (H : (Int_part (- x) <= -1)%Z).
  { apply le_IZR. lra. }
  lia.
Qed.

(** X9: the exceptions of [pdm_py].  On a finite grid a zero step raises
    [ZeroDivisionError] (from [np.arange]); with a non-zero step,
    [Nbin = 0] or [Ncover = 0] raises [ZeroDivisionError] (the bin size
    and the cover shift are reciprocals); and with all three non-zero, an
    empty time array raises [IndexError] at [time[0]] as soon as the grid
    [f0 <= fn], [df > 0] holds one frequency. *)
Theorem pdm_py_exceptions (time signal : array) (f0 fn df : R)
  (Nbin Ncover : Z) (D : float) :
  pdm_py time signal (Fin f0) (Fin fn) (Fin 0) Nbin Ncover D
    = Err ZeroDivisionError
  /\ (df <> 0 -> (Nbin = 0 \/ Ncover = 0)%Z ->
      pdm_py time signal (Fin f0) (Fin fn) (Fin df) Nbin Ncover D
        = Err ZeroDivisionError)
  /\ (0 < df -> f0 <= fn -> Nbin <> 0%Z -> Ncover <> 0%Z ->
      pdm_py [] signal (Fin f0) (Fin fn) (Fin df) Nbin Ncover D
        = Err IndexError).
Proof.
  split; [| split].
  - unfold pdm_py. cbn [fadd np_arange].
    now rewrite Reqb_true by reflexivity.
  - intros Hdf Hz. unfold pdm_py. cbn [fadd np_arange].
    rewrite Reqb_false by assumption. cbn [bind]. unfold py_div, of_Z.
    destruct (Z.eq_dec Nbin 0) as [-> | Hb].
    + now rewrite Reqb_true by reflexivity.
    + destruct Hz as [Hz | ->]; [contradiction |].
      rewrite Reqb_false by now apply not_0_IZR. cbn [bind].
      rewrite Z.mul_0_r. now rewrite Reqb_true by reflexivity.
  - intros Hdf Hf Hb Hc. unfold pdm_py. cbn [fadd np_arange].
    rewrite Reqb_false by lra. cbn [bind]. unfold py_div, of_Z.
    rewrite Reqb_false by now apply not_0_IZR. cbn [bind].
    rewrite Reqb_false by (apply not_0_IZR; nia). cbn [bind].
    assert (Hn : (1 <= Rceil ((fn + df - f0) / df))%Z).
    { apply Rceil_ge_1. apply Rmult_le_reg_r with df; [assumption |].
      unfold Rdiv. rewrite Rmult_assoc, Rinv_l by lra. lra. }
    unfold py_range.
    destruct (Z.to_nat (Rceil ((fn + df - f0) / df))) as [| m] eqn:Hm;
      [lia |].
    reflexivity.
Qed.

Lemma pdm_py_exceptions_witness :
  pdm_py [Fin 0; Fin 1] [Fin 1; Fin 3] (Fin 0) (Fin 1) (Fin 0) 5 2 (Fin 0)
    = Err ZeroDivisionError
  /\ pdm_py [Fin 0; Fin 1] [Fin 1; Fin 3] (Fin 0) (Fin 1) (Fin 1) 0 2 (Fin 0)
     = Err ZeroDivisionError
  /\ pdm_py [] [Fin 1; Fin 3] (Fin 0) (Fin 1) (Fin 1) 5 2 (Fin 0)
     = Err IndexError.
Proof.
  destruct (pdm_py_exceptions [Fin 0; Fin 1] [Fin 1; Fin 3] 0 1 1 0 2 (Fin 0))
    as (H1 & H2 & _).
  destruct (pdm_py_exceptions [Fin 0; Fin 1] [Fin 1; Fin 3] 0 1 1 5 2 (Fin 0))
    as (_ & _ & H3).
  split; [| split].
  - apply (pdm_py_exceptions [Fin 0; Fin 1] [Fin 1; Fin 3] 0 1 1 5 2 (Fin 0)).
  - apply H2; [lra | now left].
  - apply H3; [lra | lra | discriminate | discriminate].
Defined.

(** ** Grids built with [np.arange] *)

Lemma py_range_nth (n : Z) (i : nat) :
  (i < Z.to_nat n)%nat -> nth i (py_range n) 0%Z = Z.of_nat i.
Proof.
  intros Hi. unfold py_range.
  change 0%Z with (Z.of_nat 0). rewrite map_nth, seq_nth by assumption.
  reflexivity.
Qed.

Lemma np_arange_finite (f0 fn df : R) :
  df <> 0 ->
  np_arange (Fin f0) (Fin fn + Fin df)%fl (Fin df)
    = Ok (map (fun i => Fin (f0 + IZR i * df))
              (py_range (Rceil ((fn + df - f0) / df)))).
Proof.
  intros Hdf. cbn [fadd np_arange]. now rewrite Reqb_false by assumption.
Qed.

Lemma arange_entries (f0 df : R) (n : Z) (i : nat) :
  let grid := map (fun i => Fin (f0 + IZR i * df)) (py_range n) in
  (i < length grid)%nat -> nth i grid NaN = Fin (f0 + INR i * df).
Proof.
  intros grid Hi. unfold grid in *.
  rewrite length_map, py_range_length in Hi.
  rewrite (nth_indep _ NaN ((fun i => Fin (f0 + IZR i * df)) 0%Z))
    by (rewrite length_map, py_range_length; lia).
  change (Fin (f0 + 0 * df)) with ((fun i => Fin (f0 + IZR i * df)) 0%Z).
  rewrite map_nth, py_range_nth by lia. now rewrite INR_IZR_INZ.
Qed.

Lemma arange_first (f0 fn df : R) :
  0 < df -> f0 <= fn ->
  exists rest,
    map (fun i => Fin (f0 + IZR i * df))
        (py_range (Rceil ((fn + df - f0) / df))) = Fin f0 :: rest.
Proof.
  intros Hdf Hf.
  assert (Hn : (1 <= Rceil ((fn + df - f0) / df))%Z).
  { apply Rceil_ge_1. apply Rmult_le_reg_r with df; [assumption |].
    unfold Rdiv. rewrite Rmult_assoc, Rinv_l by lra. lra. }
  unfold py_range.
  destruct (Z.to_nat (Rceil ((fn + df - f0) / df))) as [| k] eqn:Hk; [lia |].
  cbn [seq map]. eexists. f_equal. f_equal. simpl. ring.
Qed.

(** X10: [pdm_py] and [schwarzenberg_czerny] evaluate the same grid,
    [np.arange(f0, fn+df, df)].  Whenever [pdm_py] returns, it returns one
    theta per frequency and the frequency of index [i] is [f0 + i*df].
    With a non-empty time array [schwarzenberg_czerny] returns, its
    frequencies are the same [f0 + i*df], and any frequency array
    [pdm_py] returns on the same grid is that one.  For [df > 0] and
    [f0 <= fn] the grid is not empty and starts at [f0]. *)
Theorem arange_grids (K : fortran) (time signal : array) (f0 fn df : R)
  (Nbin Ncover nh mode : Z) (D : float) :
  df <> 0 ->
  (forall fr th,
      pdm_py time signal (Fin f0) (Fin fn) (Fin df) Nbin Ncover D
        = Ok (fr, th) ->
      length th = length fr
      /\ (forall i, (i < length fr)%nat ->
                    nth i fr NaN = Fin (f0 + INR i * df))
      /\ (0 < df -> f0 <= fn -> exists rest, fr = Fin f0 :: rest))
  /\ (time <> [] ->
      exists fr th,
        schwarzenberg_czerny K time signal (Fin f0) (Fin fn) (Fin df) nh mode
          = Ok (fr, th)
        /\ (forall i, (i < length fr)%nat ->
                      nth i fr NaN = Fin (f0 + INR i * df))
        /\ (0 < df -> f0 <= fn -> exists rest, fr = Fin f0 :: rest)
        /\ (forall fr' th',
               pdm_py time signal (Fin f0) (Fin fn) (Fin df) Nbin Ncover D
                 = Ok (fr', th') ->
               fr' = fr)).
Proof.
  intros Hdf.
  assert (Hpdm : forall fr th,
             pdm_py time signal (Fin f0) (Fin fn) (Fin df) Nbin Ncover D
               = Ok (fr, th) ->
             fr = map (fun i => Fin (f0 + IZR i * df))
                      (py_range (Rceil ((fn + df - f0) / df)))
             /\ length th = length fr).
  { intros fr th H.
    destruct (pdm_py_length time signal f0 fn df Nbin Ncover D fr th Hdf H)
      as [Hfr Hth].
    unfold pdm_py in H. rewrite np_arange_finite in H by assumption.
    cbn [bind] in H.
    destruct (py_div (Fin 1) (of_Z Nbin)); cbn [bind] in H; [| discriminate].
    destruct (py_div (Fin 1) (of_Z (Nbin * Ncover))); cbn [bind] in H;
      [| discriminate].
    destruct (mapM _ _); cbn [bind] in H; [| discriminate].
    injection H as <- <-. split; [reflexivity |].
    rewrite Hth, length_map. reflexivity. }
  split.
  - intros fr th H. destruct (Hpdm fr th H) as [-> Hth].
    split; [exact Hth |]. split.
    + intros i Hi. now apply arange_entries.
    + intros Hpos Hf. now apply arange_first.
  - intros Ht. destruct (np_ptp_nonempty time Ht) as [T HT].
    unfold schwarzenberg_czerny. rewrite HT. cbn [bind].
    rewrite np_arange_finite by assumption. cbn [bind].
    rewrite np_zeros_Ok by lia. cbn [bind].
    eexists _, _. split; [reflexivity |]. split; [| split].
    + intros i Hi. now apply arange_entries.
    + intros Hpos Hf. now apply arange_first.
    + intros fr' th' H. now destruct (Hpdm fr' th' H).
Qed.

Lemma arange_grids_witness :
  1 <> 0 /\ [Fin 0; Fin 1] <> [] /\ 0 < 1 /\ 0 <= 10.5 /\
  exists rest th,
    schwarzenberg_czerny idle_kernels [Fin 0; Fin 1] [Fin 1; Fin 3]
                         (Fin 0) (Fin 10.5) (Fin 1) 2 1
      = Ok (Fin 0 :: rest, th)
    /\ nth 0 (Fin 0 :: rest) NaN = Fin (0 + INR 0 * 1).
Proof.
  assert (Hd : 1 <> 0) by lra.
  assert (Ht : [Fin 0; Fin 1] <> []) by discriminate.
  destruct (arange_grids idle_kernels [Fin 0; Fin 1] [Fin 1; Fin 3] 0 10.5 1
              5 2 2 1 (Fin 0) Hd) as (_ & Hsc).
  destruct (Hsc Ht) as (fr & th & H & Hnth & Hfirst & _).
  destruct Hfirst as [rest ->]; [lra | lra |].
  split; [exact Hd |]. split; [exact Ht |]. split; [lra |].
  split; [lra |]. exists rest, th. split; [exact H |].
  apply Hnth. simpl. lia.
Defined.

(** ** The normalisation modes compared *)

Lemma normalise_other (norm : string) (n : nat) (T : float)
  (signal S : array) :
  norm <> "distribution"%string -> norm <> "amplitude"%string ->
  norm <> "density"%string ->
  normalise norm n T signal S = normalise "power" n T signal S.
Proof.
  intros Hd Ha Hy. unfold normalise.
  destruct (py_div (Fin 4) (of_nat n)); cbn [bind]; [| reflexivity].
  destruct (String.eqb_spec norm "distribution"); [contradiction |].
  destruct (String.eqb_spec norm "amplitude"); [contradiction |].
  destruct (String.eqb_spec norm "density"); [contradiction |].
  reflexivity.
Qed.

(** X11: the [norm] argument is not validated: any string other than
    ['distribution'], ['amplitude'] and ['density'] makes [scargle] and
    [deeming] behave as under ['power']. *)
Theorem unknown_norm_is_power (g : namespace) (K : fortran)
  (times signal : array) (f0 fn df : float) (weights : option array)
  (norm : string) :
  norm <> "distribution"%string -> norm <> "amplitude"%string ->
  norm <> "density"%string ->
  scargle g K times signal f0 fn df norm weights
    = scargle g K times signal f0 fn df "power" weights
  /\ deeming K times signal f0 fn df norm
     = deeming K times signal f0 fn df "power".
Proof.
  intros Hd Ha Hy. split.
  - unfold scargle. destruct (np_ptp times) as [T |]; cbn [bind];
      [| reflexivity].
    destruct (scargle_raw g K times signal f0 fn df weights) as [[f1 s1] |];
      cbn [bind]; [| reflexivity].
    now rewrite normalise_other.
  - unfold deeming.
    destruct (deeming_raw K times signal f0 fn df) as [[[T f1] s1] |];
      cbn [bind]; [| reflexivity].
    now rewrite normalise_other.
Qed.

Lemma unknown_norm_is_power_witness :
  "Amplitude"%string <> "distribution"%string /\
  "Amplitude"%string <> "amplitude"%string /\
  "Amplitude"%string <> "density"%string /\
  scargle (module_globals Imported) idle_kernels [Fin 0; Fin 10]
          [Fin 1; Fin 2] (Fin 0) (Fin 1) (Fin 1) "Amplitude" None
    = scargle (module_globals Imported) idle_kernels [Fin 0; Fin 10]
              [Fin 1; Fin 2] (Fin 0) (Fin 1) (Fin 1) "power" None.
Proof.
  split; [discriminate |]. split; [discriminate |]. split; [discriminate |].
  apply (unknown_norm_is_power (module_globals Imported) idle_kernels
           [Fin 0; Fin 10] [Fin 1; Fin 2] (Fin 0) (Fin 1) (Fin 1) None
           "Amplitude"); discriminate.
Defined.

Section ModeRelations.

Variables (n : nat) (T : float) (signal : array) (S : list R).
Hypothesis Hn : (0 < n)%nat.
Hypothesis HS : Forall (fun s => 0 <= s) S.

Lemma amplitude_squared :
  map (fun a => (a * a / Fin (4 / INR n))%fl)
      (map (fun s => (Fin (sqrt (4 / INR n)) * fsqrt s)%fl) (map Fin S))
    = map Fin S.
Proof.
  pose proof (four_over_n_pos n Hn) as Hq.
  rewrite !map_map. apply map_ext_in. intros s Hs.
  rewrite Forall_forall in HS. specialize (HS s Hs).
  cbn [fsqrt]. rewrite Rltb_false by lra. cbn [fmul fdiv].
  rewrite Reqb_false by lra. f_equal.
  replace (sqrt (4 / INR n) * sqrt s * (sqrt (4 / INR n) * sqrt s))
    with (sqrt (4 / INR n) * sqrt (4 / INR n) * (sqrt s * sqrt s)) by ring.
  rewrite !sqrt_sqrt by lra.
  assert (0 < INR n) by (apply lt_0_INR; lia). field. lra.
Qed.

Lemma density_from_amplitude :
  map (fun s => (Fin (4 / INR n) * s * T)%fl) (map Fin S)
    = map (fun a => (a * a * T)%fl)
          (map (fun s => (Fin (sqrt (4 / INR n)) * fsqrt s)%fl) (map Fin S)).
Proof.
  pose proof (four_over_n_pos n Hn) as Hq.
  rewrite !map_map. apply map_ext_in. intros s Hs.
  rewrite Forall_forall in HS. specialize (HS s Hs).
  cbn [fsqrt]. rewrite Rltb_false by lra. cbn [fmul]. do 2 f_equal.
  replace (sqrt (4 / INR n) * sqrt s * (sqrt (4 / INR n) * sqrt s))
    with (sqrt (4 / INR n) * sqrt (4 / INR n) * (sqrt s * sqrt s)) by ring.
  now rewrite !sqrt_sqrt by lra.
Qed.

End ModeRelations.

(** X12: for a raw statistic of finite non-negative values, the
    amplitude spectrum of [scargle] determines the two others: squaring
    it and dividing by [4/n] gives back the raw statistic (the ['power']
    output), and squaring it and multiplying by the time span gives the
    ['density'] output. *)
Theorem amplitude_determines_power_and_density (g : namespace) (K : fortran)
  (times signal : array) (f0 fn df : float) (weights : option array)
  (T : float) (f1 : array) (S : list R) :
  np_ptp times = Ok T ->
  scargle_raw g K times signal f0 fn df weights = Ok (f1, map Fin S) ->
  Forall (fun s => 0 <= s) S ->
  exists A,
    scargle g K times signal f0 fn df "amplitude" weights = Ok (f1, A)
    /\ scargle g K times signal f0 fn df "power" weights
       = Ok (f1, map (fun a => (a * a / Fin (4 / INR (length times)))%fl) A)
    /\ scargle g K times signal f0 fn df "density" weights
       = Ok (f1, map (fun a => (a * a * T)%fl) A).
Proof.
  intros HT Hraw HS. pose proof (np_ptp_Ok_length times T HT) as Hn.
  exists (map (fun s => (Fin (sqrt (4 / INR (length times))) * fsqrt s)%fl)
              (map Fin S)).
  unfold scargle. rewrite HT, Hraw. cbn [bind].
  rewrite normalise_amplitude, normalise_power, normalise_density
    by assumption.
  cbn [bind]. rewrite amplitude_squared by assumption.
  rewrite <- density_from_amplitude by assumption.
  repeat split; reflexivity.
Qed.

Lemma amplitude_determines_power_and_density_witness :
  np_ptp [Fin 0; Fin 10] = Ok (Fin 10) /\
  Forall (fun s => 0 <= s) [0; 0] /\
  exists A,
    scargle (module_globals Imported) idle_kernels [Fin 0; Fin 10]
            [Fin 1; Fin 2] (Fin 0) (Fin 1) (Fin 1) "amplitude" None
      = Ok ([Fin 0; Fin 0], A)
    /\ scargle (module_globals Imported) idle_kernels [Fin 0; Fin 10]
               [Fin 1; Fin 2] (Fin 0) (Fin 1) (Fin 1) "power" None
       = Ok ([Fin 0; Fin 0],
             map (fun a => (a * a / Fin (4 / INR 2))%fl) A)
    /\ scargle (module_globals Imported) idle_kernels [Fin 0; Fin 10]
               [Fin 1; Fin 2] (Fin 0) (Fin 1) (Fin 1) "density" None
       = Ok ([Fin 0; Fin 0], map (fun a => (a * a * Fin 10)%fl) A).
Proof.
  assert (HS : Forall (fun s => 0 <= s) [0; 0])
    by (repeat constructor; lra).
  split; [exact np_ptp_0_10 |]. split; [exact HS |].
  apply (amplitude_determines_power_and_density (module_globals Imported)
           idle_kernels [Fin 0; Fin 10] [Fin 1; Fin 2] (Fin 0) (Fin 1) (Fin 1)
           None (Fin 10) [Fin 0; Fin 0] [0; 0]).
  - exact np_ptp_0_10.
  - apply idle_scargle_raw_0_1_1.
  - exact HS.
Defined.

Lemma constant_scargle_raw_0_1_1 (g : namespace) (times signal : array) :
  scargle_raw g (constant_kernels (Fin (-4))) times signal
              (Fin 0) (Fin 1) (Fin 1) None
    = Ok ([Fin 0; Fin 0], [Fin (-4); Fin (-4)]).
Proof.
  unfold scargle_raw, scargle_kernel. rewrite grid_size_valid by lra.
  rewrite <- (Int_part_spec ((1 - 0) / 1 + 0.001) 1) by lra.
  change (1 + 1)%Z with 2%Z. cbn [bind]. rewrite np_zeros_Ok by lia.
  change (Z.to_nat 2) with 2%nat. cbn. rdecide. reflexivity.
Qed.

(** X13: under ['amplitude'] the square root is taken without a guard:
    every negative raw value of [scargle] (finite or [-inf]) comes back
    as [NaN], at its place in the array. *)
Theorem amplitude_of_negative_is_NaN (g : namespace) (K : fortran)
  (times signal : array) (f0 fn df : float) (weights : option array)
  (T : float) (f1 S : array) :
  np_ptp times = Ok T ->
  scargle_raw g K times signal f0 fn df weights = Ok (f1, S) ->
  exists A,
    scargle g K times signal f0 fn df "amplitude" weights = Ok (f1, A)
    /\ Forall2 (fun s a => flt s (Fin 0) = true -> a = NaN) S A.
Proof.
  intros HT Hraw. pose proof (np_ptp_Ok_length times T HT) as Hn.
  eexists. unfold scargle. rewrite HT, Hraw. cbn [bind].
  rewrite normalise_amplitude by assumption. cbn [bind].
  split; [reflexivity |]. clear Hraw.
  induction S as [| s S' IH]; cbn [map]; [constructor |].
  constructor; [| exact IH].
  intros Hs. destruct s as [r | | |]; cbn [flt] in Hs; try discriminate.
  - cbn [fsqrt]. now rewrite Hs.
  - reflexivity.
Qed.

Lemma amplitude_of_negative_is_NaN_witness :
  np_ptp [Fin 0; Fin 10] = Ok (Fin 10) /\
  scargle_raw (module_globals Imported) (constant_kernels (Fin (-4)))
              [Fin 0; Fin 10] [Fin 1; Fin 2] (Fin 0) (Fin 1) (Fin 1) None
    = Ok ([Fin 0; Fin 0], [Fin (-4); Fin (-4)]) /\
  flt (Fin (-4)) (Fin 0) = true /\
  scargle (module_globals Imported) (constant_kernels (Fin (-4)))
          [Fin 0; Fin 10] [Fin 1; Fin 2] (Fin 0) (Fin 1) (Fin 1)
          "amplitude" None
    = Ok ([Fin 0; Fin 0], [NaN; NaN]).
Proof.
  assert (Hneg : flt (Fin (-4)) (Fin 0) = true)
    by (cbn [flt]; apply Rltb_true; lra).
  assert (Hraw := constant_scargle_raw_0_1_1 (module_globals Imported)
                    [Fin 0; Fin 10] [Fin 1; Fin 2]).
  split; [exact np_ptp_0_10 |]. split; [exact Hraw |]. split; [exact Hneg |].
  destruct (amplitude_of_negative_is_NaN (module_globals Imported)
              (constant_kernels (Fin (-4))) [Fin 0; Fin 10] [Fin 1; Fin 2]
              (Fin 0) (Fin 1) (Fin 1) None (Fin 10) [Fin 0; Fin 0]
              [Fin (-4); Fin (-4)] np_ptp_0_10 Hraw) as (A & HA & HF).
  rewrite HA.
  inversion HF as [| s1 a1 S1 A1 H1 HF1]; subst.
  inversion HF1 as [| s2 a2 S2 A2 H2 HF2]; subst.
  inversion HF2; subst.
  now rewrite (H1 Hneg), (H2 Hneg).
Defined.

(** ** Exceptions of the kernel estimators *)

(** X14: an empty time array.  [scargle], [gls], [schwarzenberg_czerny],
    [pdm] and [bls] take the time span first and raise [ValueError]
    whatever the other arguments; [deeming] computes its grid size first,
    so it raises [ValueError] on a finite grid with [df <> 0] and
    [ZeroDivisionError] when [df = 0]. *)
Theorem empty_times_raise (np : numpy_release) (g : namespace) (K : fortran)
  (signal : array)
  (f0 fn df : float) (norm : string) (weights errors : option array)
  (wexp nh mode Nbin Ncover nb : Z) (D : option float) (qmi qma : float)
  (a b s : R) :
  scargle g K [] signal f0 fn df norm weights = Err ValueError
  /\ gls K [] signal f0 fn df errors wexp = Err ValueError
  /\ schwarzenberg_czerny K [] signal f0 fn df nh mode = Err ValueError
  /\ pdm K [] signal f0 fn df Nbin Ncover D = Err ValueError
  /\ bls np K [] signal f0 fn df nb qmi qma = Err ValueError
  /\ (s <> 0 ->
      deeming K [] signal (Fin a) (Fin b) (Fin s) norm = Err ValueError)
  /\ deeming K [] signal f0 fn (Fin 0) norm = Err ZeroDivisionError.
Proof.
  repeat split; try reflexivity.
  - intros Hs. unfold deeming, deeming_raw, grid_size, py_div.
    rewrite Reqb_false by assumption. cbn [bind fsub fopp fadd fdiv].
    rewrite Reqb_false by assumption. reflexivity.
  - unfold deeming, deeming_raw, grid_size, py_div.
    now rewrite Reqb_true by reflexivity.
Qed.

Lemma empty_times_raise_witness :
  1 <> 0 /\
  deeming idle_kernels [] [Fin 1] (Fin 0) (Fin 1) (Fin 1) "power"
    = Err ValueError.
Proof.
  split; [lra |].
  apply (empty_times_raise Numpy_1_18_on (module_globals Imported)
           idle_kernels [Fin 1]
           (Fin 0) (Fin 1) (Fin 1) "power" None None 2 2 1 5 2 50 None
           (Fin 0.005) (Fin 0.75) 0 1 1).
  lra.
Defined.

(** X15: a zero frequency step.  On a non-empty time array, [df = 0]
    raises [ZeroDivisionError] in [scargle], [deeming], [gls], [pdm] and
    [bls] whatever the other arguments, and in [schwarzenberg_czerny] on
    finite grid bounds.  In [scargle] this comes before the weighted
    branch is entered, so before the [NameError] of a weighted call. *)
Theorem zero_step_raises (np : numpy_release) (g : namespace) (K : fortran)
  (times signal : array)
  (f0 fn : float) (norm : string) (weights errors : option array)
  (wexp nh mode Nbin Ncover nb : Z) (D : option float) (qmi qma : float)
  (a b : R) :
  times <> [] ->
  scargle g K times signal f0 fn (Fin 0) norm weights = Err ZeroDivisionError
  /\ deeming K times signal f0 fn (Fin 0) norm = Err ZeroDivisionError
  /\ gls K times signal f0 fn (Fin 0) errors wexp = Err ZeroDivisionError
  /\ pdm K times signal f0 fn (Fin 0) Nbin Ncover D = Err ZeroDivisionError
  /\ bls np K times signal f0 fn (Fin 0) nb qmi qma = Err ZeroDivisionError
  /\ schwarzenberg_czerny K times signal (Fin a) (Fin b) (Fin 0) nh mode
     = Err ZeroDivisionError.
Proof.
  intros Ht. destruct (np_ptp_nonempty times Ht) as [T HT].
  assert (Hg : grid_size f0 fn (Fin 0) = Err ZeroDivisionError).
  { unfold grid_size, py_div. now rewrite Reqb_true by reflexivity. }
  repeat split.
  - unfold scargle, scargle_raw, scargle_kernel. rewrite HT. cbn [bind].
    now rewrite Hg.
  - unfold deeming, deeming_raw. now rewrite Hg.
  - unfold gls, py_div. rewrite HT. cbn [bind].
    now rewrite Reqb_true by reflexivity.
  - unfold pdm. rewrite HT. cbn [bind]. now rewrite Hg.
  - unfold bls, py_div. rewrite HT. cbn [bind].
    rewrite np_zeros_Ok by lia. cbn [bind].
    now rewrite Reqb_true by reflexivity.
  - unfold schwarzenberg_czerny. rewrite HT. cbn [bind fadd np_arange].
    now rewrite Reqb_true by reflexivity.
Qed.

Lemma zero_step_raises_witness :
  [Fin 0; Fin 10] <> [] /\
  scargle (module_globals Imported) idle_kernels [Fin 0; Fin 10]
          [Fin 1; Fin 2] (Fin 0) (Fin 1) (Fin 0) "amplitude"
          (Some [Fin 1; Fin 1])
    = Err ZeroDivisionError.
Proof.
  split; [discriminate |].
  apply (zero_step_raises Numpy_1_18_on (module_globals Imported)
           idle_kernels
           [Fin 0; Fin 10] [Fin 1; Fin 2] (Fin 0) (Fin 1) "amplitude"
           (Some [Fin 1; Fin 1]) None 2 2 1 5 2 50 None (Fin 0.005)
           (Fin 0.75) 0 1).
  discriminate.
Defined.

(** ** The guard of [pdm] *)

Lemma truthy_one : truthy (Fin 1) = true.
Proof. cbn [truthy]. now rewrite Reqb_false by lra. Qed.

(** X16: [pdm] never returns a zero in first place: with a non-empty
    time array, a grid with [fn > f0] and [df > 0] and kernels that keep
    the shape of their buffers, the call returns and its first theta is
    true to Python; a zero written by the kernel is returned as [1.0]
    (line 581). *)
Theorem pdm_first_theta (K : fortran) (times signal : array) (f0 fn df : R)
  (Nbin Ncover : Z) (D : option float) :
  keeps_shape K -> times <> [] -> f0 < fn -> 0 < df ->
  exists f1 x rest,
    pdm K times signal (Fin f0) (Fin fn) (Fin df) Nbin Ncover D
      = Ok (f1, x :: rest)
    /\ truthy x = true.
Proof.
  intros HK Ht Hf Hd.
  pose proof (specified_size_pos f0 fn df Hf Hd) as HN.
  pose proof (grid_size_positive f0 fn df Hf Hd) as Hpos.
  destruct (np_ptp_nonempty times Ht) as [T HT].
  unfold pdm. rewrite HT. cbn [bind].
  rewrite grid_size_valid by assumption. cbn [bind].
  rewrite np_zeros_Ok by lia. cbn [bind].
  set (z := repeat (Fin 0) _).
  assert (Hz : length z = specified_size f0 fn df)
    by (unfold z; now rewrite repeat_length).
  set (r := match D with
            | None => justel K _ _ _ _ _ _ _ _ _ _ _ _
            | Some D' => justel2 K _ _ _ _ _ _ _ _ D' _ _ _ _
            end).
  assert (Hr : length (snd r) = specified_size f0 fn df).
  { unfold r. destruct D as [D' |].
    - destruct (justel2_shape K HK signal times (Fin f0) (Fin df) Nbin Ncover
                  (fsq (fsqrt (np_var signal)))
                  (of_Z (Z.of_nat (length times) - 1)
                   * fsq (fsqrt (np_var signal)))%fl
                  D' z z (length times)
                  (Int_part ((fn - f0) / df + 0.001) + 1)) as [_ H2].
      congruence.
    - destruct (justel_shape K HK signal times (Fin f0) (Fin df) Nbin Ncover
                  (fsq (fsqrt (np_var signal)))
                  (of_Z (Z.of_nat (length times) - 1)
                   * fsq (fsqrt (np_var signal)))%fl
                  z z (length times)
                  (Int_part ((fn - f0) / df + 0.001) + 1)) as [_ H2].
      congruence. }
  destruct r as [f1 [| x s1]]; cbn [snd length] in Hr; [lia |].
  unfold fix_first. cbn [getitem0 bind].
  destruct (truthy x) eqn:Hx; cbn [setitem0 bind].
  - exists f1, x, s1. split; [reflexivity | exact Hx].
  - exists f1, (Fin 1), s1. split; [reflexivity | exact truthy_one].
Qed.

Lemma pdm_first_theta_witness :
  keeps_shape idle_kernels /\ [Fin 0; Fin 10] <> [] /\ 0 < 1 /\
  exists f1 x rest,
    pdm idle_kernels [Fin 0; Fin 10] [Fin 1; Fin 2] (Fin 0) (Fin 1) (Fin 1)
        5 2 (Some (Fin 0)) = Ok (f1, x :: rest)
    /\ truthy x = true.
Proof.
  split; [apply idle_kernels_keep_shape |].
  split; [discriminate |]. split; [lra |].
  apply (pdm_first_theta idle_kernels [Fin 0; Fin 10] [Fin 1; Fin 2] 0 1 1
           5 2 (Some (Fin 0))).
  - apply idle_kernels_keep_shape.
  - discriminate.
  - lra.
  - lra.
Defined.

(** ** The frequency array of [bls] *)

Lemma Rtrunc_nonpos (x : R) : x <= 0 -> (Rtrunc x <= 0)%Z.
Proof.
  intros Hx. unfold Rtrunc, Rleb. destruct (Rle_dec 0 x) as [H0 | H0].
  - rewrite <- (Int_part_spec x 0); [lia | lra].
  - assert (0 <= Int_part (- x))%Z by (apply Int_part_nonneg; lra). lia.
Qed.

Lemma Rtrunc_negative (x : R) : x <= -1 -> (Rtrunc x < 0)%Z.
Proof.
  intros Hx. unfold Rtrunc, Rleb. destruct (Rle_dec 0 x) as [H0 | H0].
  - lra.
  - destruct (base_Int_part (- x)) as [_ Hb].
    assert (0 < Int_part (- x))%Z by (apply lt_IZR; lra). lia.
Qed.

(** Up to line 746 [bls] does not depend on the numpy release. *)
Lemma bls_until_linspace (np : numpy_release) (K : fortran)
  (times signal : array) (f0 fn df : R) (nb : Z) (qmi qma : float) :
  times <> [] -> df <> 0 ->
  exists f0' power,
    bls np K times signal (Fin f0) (Fin fn) (Fin df) nb qmi qma
      = (frequencies <- np_linspace np f0' (Fin fn) (Fin ((fn - f0) / df)) ;;
         Ok (frequencies, power)).
Proof.
  intros Ht Hd. destruct (np_ptp_nonempty times Ht) as [T HT].
  unfold bls. rewrite HT. cbn [bind].
  rewrite np_zeros_Ok by lia. cbn [bind].
  unfold py_div. rewrite Reqb_false by assumption.
  cbn [bind fsub fopp fadd fdiv]. rewrite Reqb_false by assumption.
  change (fn + - f0) with (fn - f0).
  destruct (eebls K _ _ _ _ _ _ _ _ _ _ _)
    as [[[[power depth] qtran] in1] in2].
  now exists (bls_f0 T (Fin f0)), power.
Qed.

(** X17: the frequency array of [bls] comes from
    [np.linspace(f0, fn, (fn-f0)/df)], called with a float count.  With a
    non-empty time array and [df <> 0]:
    - under numpy 1.18 and later every call raises [TypeError];
    - under the releases up to 1.17 that check the sign of the count, a
      quotient [(fn-f0)/df <= -1] raises [ValueError];
    - under the early releases a quotient [(fn-f0)/df <= 0] returns an
      empty frequency array, without any exception;
    - under every release before 1.18 a quotient [(fn-f0)/df >= 2] returns
      a frequency array of two entries or more whose last entry is
      exactly [fn]. *)
Theorem bls_frequencies (np : numpy_release) (K : fortran)
  (times signal : array) (f0 fn df : R) (nb : Z) (qmi qma : float) :
  times <> [] -> df <> 0 ->
  (np = Numpy_1_18_on ->
   bls np K times signal (Fin f0) (Fin fn) (Fin df) nb qmi qma
     = Err TypeError)
  /\ (np = Numpy_up_to_1_17 -> (fn - f0) / df <= -1 ->
      bls np K times signal (Fin f0) (Fin fn) (Fin df) nb qmi qma
        = Err ValueError)
  /\ (np = Numpy_early -> (fn - f0) / df <= 0 ->
      exists pw,
        bls np K times signal (Fin f0) (Fin fn) (Fin df) nb qmi qma
          = Ok ([], pw))
  /\ (np <> Numpy_1_18_on -> 2 <= (fn - f0) / df ->
      exists fr pw,
        bls np K times signal (Fin f0) (Fin fn) (Fin df) nb qmi qma
          = Ok (fr ++ [Fin fn], pw)
        /\ fr <> []).
Proof.
  intros Ht Hd.
  destruct (bls_until_linspace np K times signal f0 fn df nb qmi qma Ht Hd)
    as (f0' & power & Hbls).
  rewrite Hbls. clear Hbls. split; [| split; [| split]].
  - intros ->. reflexivity.
  - intros -> Hq. apply Rtrunc_negative in Hq.
    unfold np_linspace. cbn [py_int bind].
    destruct (Z.ltb_spec (Rtrunc ((fn - f0) / df)) 0); [reflexivity | lia].
  - intros -> Hq. apply Rtrunc_nonpos in Hq.
    unfold np_linspace. cbn [py_int bind].
    destruct (Z.leb_spec (Rtrunc ((fn - f0) / df)) 0); [| lia].
    now exists power.
  - intros Hnp Hq.
    assert (Hn : (2 <= Rtrunc ((fn - f0) / df))%Z)
      by (apply Rtrunc_ge; [lia | lra]).
    rewrite np_linspace_count by assumption. cbn [bind].
    destruct (linspace_samples_last f0' (Fin fn) _ Hn) as (fr & Hfr & Hne).
    exists fr, power. now rewrite Hfr.
Qed.

Lemma bls_frequencies_witness :
  [Fin 0; Fin 10] <> [] /\ 1 <> 0 /\
  Numpy_up_to_1_17 <> Numpy_1_18_on /\ 2 <= (10 - 0) / 1 /\
  exists fr pw,
    bls Numpy_up_to_1_17 idle_kernels [Fin 0; Fin 10] [Fin 1; Fin 2]
        (Fin 0) (Fin 10) (Fin 1) 50 (Fin 0.005) (Fin 0.75)
      = Ok (fr ++ [Fin 10], pw)
    /\ fr <> [].
Proof.
  assert (Ht : [Fin 0; Fin 10] <> []) by discriminate.
  assert (Hd : 1 <> 0) by lra.
  assert (Hnp : Numpy_up_to_1_17 <> Numpy_1_18_on) by discriminate.
  assert (Hq : 2 <= (10 - 0) / 1) by lra.
  split; [exact Ht |]. split; [exact Hd |]. split; [exact Hnp |].
  split; [exact Hq |].
  destruct (bls_frequencies Numpy_up_to_1_17 idle_kernels [Fin 0; Fin 10]
              [Fin 1; Fin 2] 0 10 1 50 (Fin 0.005) (Fin 0.75) Ht Hd)
    as (_ & _ & _ & Hlast).
  exact (Hlast Hnp Hq).
Defined.

(** ** The FFT power spectra *)

Lemma csum_from (A B : nat -> R -> R) (l : list nat) (xs : list R) (a b : R) :
  fold_left cadd (zip_with (fun m x => (Fin (A m x), Fin (B m x))) l xs)
            (Fin a, Fin b)
    = (Fin (a + Rsum (zip_with A l xs)), Fin (b + Rsum (zip_with B l xs))).
Proof.
  revert xs a b. induction l as [| m l IH]; intros [| x xs] a b;
    cbn [zip_with fold_left Rsum fold_right];
    try (f_equal; f_equal; ring).
  unfold cadd at 2. cbn [fst snd fadd]. rewrite IH.
  fold (Rsum (zip_with A l xs)) (Rsum (zip_with B l xs)).
  f_equal; f_equal; ring.
Qed.

Lemma zip_with_map_r {A B C D : Type} (f : A -> C -> D) (g : B -> C)
  (l : list A) (xs : list B) :
  zip_with f l (map g xs) = zip_with (fun m x => f m (g x)) l xs.
Proof.
  revert xs. induction l as [| m l IH]; intros [| x xs]; cbn [map zip_with];
    try reflexivity.
  now rewrite IH.
Qed.

Lemma zip_with_ext {A B C : Type} (f g : A -> B -> C) (l : list A)
  (xs : list B) :
  (forall m x, f m x = g m x) -> zip_with f l xs = zip_with g l xs.
Proof.
  intros H. revert xs. induction l as [| m l IH]; intros [| x xs];
    cbn [zip_with]; try reflexivity.
  now rewrite H, IH.
Qed.

Lemma rfft_Fin (xs : list R) :
  xs <> [] ->
  rfft (map Fin xs)
    = Ok (map (fun k => (Fin (dft_re xs k), Fin (dft_im xs k)))
              (seq 0 (length xs / 2 + 1))).
Proof.
  intros Hne. unfold rfft. rewrite length_map.
  destruct (Nat.eqb_spec (length xs) 0) as [H0 | _].
  { destruct xs; [congruence | discriminate]. }
  f_equal. apply map_ext. intros k.
  rewrite zip_with_map_r.
  rewrite (zip_with_ext _
             (fun m x => (Fin (x * cos (twiddle_angle (length xs) k m)),
                          Fin (x * sin (twiddle_angle (length xs) k m))))).
  2:{ intros m x. unfold cmul, of_real, twiddle.
      cbn [fst snd fmul fsub fopp fadd]. f_equal; f_equal; ring. }
  unfold csum. rewrite csum_from. unfold dft_re, dft_im.
  f_equal; f_equal; ring.
Qed.

Lemma cabs2_Fin (a b : R) : cabs2 (Fin a, Fin b) = Fin (a * a + b * b).
Proof.
  unfold cabs2, fsq. cbn [fst snd fmul fadd fsqrt].
  assert (0 <= a * a + b * b) by nra.
  rewrite Rltb_false by lra. cbn [fmul]. now rewrite sqrt_sqrt.
Qed.

Lemma FFTpower_Fin (xs : list R) (dt : float) :
  xs <> [] ->
  FFTpower (map Fin xs) dt
    = Ok (fft_frequencies (length xs / 2 + 1) dt,
          map (fun k => Fin (dft_power xs k * 4
                             / (INR (length xs) * INR (length xs))))
              (seq 0 (length xs / 2 + 1))).
Proof.
  intros Hne. pose proof (INR_length_pos xs Hne) as Hn.
  unfold FFTpower. rewrite rfft_Fin by assumption. cbn [bind].
  rewrite !length_map, length_seq, map_map. do 2 f_equal.
  apply map_ext. intros k. rewrite cabs2_Fin. unfold of_nat.
  cbn [fmul fdiv]. rewrite mult_INR. now rewrite Reqb_false by nra.
Qed.

Lemma FFTpowerdensity_Fin (xs : list R) (dt : R) :
  xs <> [] ->
  FFTpowerdensity (map Fin xs) (Fin dt)
    = Ok (fft_frequencies (length xs / 2 + 1) (Fin dt),
          map (fun k => Fin (dft_power xs k / INR (length xs) * dt))
              (seq 0 (length xs / 2 + 1))).
Proof.
  intros Hne. pose proof (INR_length_pos xs Hne) as Hn.
  unfold FFTpowerdensity. rewrite rfft_Fin by assumption. cbn [bind].
  rewrite !length_map, length_seq, map_map. do 2 f_equal.
  apply map_ext. intros k. rewrite cabs2_Fin. unfold of_nat.
  cbn [fmul fdiv]. now rewrite Reqb_false by lra.
Qed.

(** X18: the two FFT spectra of a finite non-empty signal are one
    spectrum in two units: they share the frequency axis, and each power
    density is the power at that frequency times [N * timestep / 4]. *)
Theorem FFT_density_from_power (xs : list R) (dt : R) :
  xs <> [] ->
  exists freq power,
    FFTpower (map Fin xs) (Fin dt) = Ok (freq, power)
    /\ FFTpowerdensity (map Fin xs) (Fin dt)
       = Ok (freq,
             map (fun p => (p * Fin (INR (length xs) * dt / 4))%fl) power).
Proof.
  intros Hne. pose proof (INR_length_pos xs Hne) as Hn.
  rewrite FFTpower_Fin, FFTpowerdensity_Fin by assumption.
  eexists _, _. split; [reflexivity |].
  rewrite map_map. do 2 f_equal. apply map_ext. intros k.
  cbn [fmul]. f_equal. field. lra.
Qed.

Lemma FFT_density_from_power_witness :
  [1; 2; 3; 4] <> [] /\
  exists freq power,
    FFTpower (map Fin [1; 2; 3; 4]) (Fin 0.5) = Ok (freq, power)
    /\ FFTpowerdensity (map Fin [1; 2; 3; 4]) (Fin 0.5)
       = Ok (freq,
             map (fun p => (p * Fin (INR (length [1; 2; 3; 4]) * 0.5 / 4))%fl)
                 power).
Proof.
  split; [discriminate |].
  apply (FFT_density_from_power [1; 2; 3; 4] 0.5). discriminate.
Defined.

Lemma zip_with_snd {A B C : Type} (g : B -> C) (l : list A) (xs : list B) :
  length l = length xs -> zip_with (fun _ x => g x) l xs = map g xs.
Proof.
  revert xs. induction l as [| m l IH]; intros [| x xs] H;
    try discriminate; cbn [zip_with map]; [reflexivity |].
  f_equal. apply IH. simpl in H. lia.
Qed.

Lemma dft_power_0 (xs : list R) : dft_power xs 0 = Rsum xs * Rsum xs.
Proof.
  assert (Ha : forall m, twiddle_angle (length xs) 0 m = 0).
  { intros m. unfold twiddle_angle. simpl INR. unfold Rdiv. ring. }
  unfold dft_power, dft_re, dft_im.
  rewrite (zip_with_ext _ (fun _ x => x * 1))
    by (intros m x; now rewrite Ha, cos_0).
  rewrite (zip_with_ext (fun m x => x * sin _) (fun _ x => x * 0))
    by (intros m x; now rewrite Ha, sin_0).
  rewrite !zip_with_snd by apply length_seq.
  rewrite (map_ext (fun x => x * 1) (fun x => x)) by (intros; ring).
  rewrite map_id.
  rewrite (map_ext (fun x => x * 0) (fun x => 0 * (fun _ => 1) x))
    by (intros; ring).
  rewrite (Rsum_map_scale 0). ring.
Qed.

(** X19: the zero-frequency value of [FFTpower] is four times the
    squared mean of the (finite, non-empty) signal, whatever the time
    step. *)
Theorem FFTpower_zero_frequency (xs : list R) (dt : float) :
  xs <> [] ->
  exists freq rest,
    FFTpower (map Fin xs) dt
      = Ok (freq, Fin (4 * (Rmean xs * Rmean xs)) :: rest).
Proof.
  intros Hne. pose proof (INR_length_pos xs Hne) as Hn.
  rewrite FFTpower_Fin by assumption.
  rewrite Nat.add_1_r. cbn [seq map]. eexists _, _.
  replace (4 * (Rmean xs * Rmean xs))
    with (dft_power xs 0 * 4 / (INR (length xs) * INR (length xs)));
    [reflexivity |].
  rewrite dft_power_0. unfold Rmean. field. lra.
Qed.

Lemma FFTpower_zero_frequency_witness :
  [1; 2; 3; 6] <> [] /\
  exists freq rest,
    FFTpower (map Fin [1; 2; 3; 6]) (Fin 0.5)
      = Ok (freq, Fin (4 * (Rmean [1; 2; 3; 6] * Rmean [1; 2; 3; 6])) :: rest).
Proof.
  split; [discriminate |].
  apply (FFTpower_zero_frequency [1; 2; 3; 6] (Fin 0.5)). discriminate.
Defined.

Lemma rfft_nonempty (signal : array) :
  signal <> [] ->
  exists fourier,
    rfft signal = Ok fourier /\ length fourier = (length signal / 2 + 1)%nat.
Proof.
  intros Hne. unfold rfft.
  destruct (Nat.eqb_spec (length signal) 0) as [H0 | _].
  { destruct signal; [congruence | discriminate]. }
  eexists. split; [reflexivity |]. now rewrite length_map, length_seq.
Qed.

Lemma fft_frequencies_finite (n : nat) (dt : R) :
  (0 < n)%nat -> dt <> 0 ->
  fft_frequencies (n + 1) (Fin dt)
    = map (fun k => Fin (INR k / INR n * 0.5 / dt)) (seq 0 (n + 1)).
Proof.
  intros Hn Hdt. unfold fft_frequencies. apply map_ext. intros k.
  assert (Hq : IZR (Z.of_nat (n + 1) - 1) = INR n).
  { rewrite INR_IZR_INZ. f_equal. lia. }
  assert (0 < INR n) by now apply lt_0_INR.
  unfold of_nat, of_Z. rewrite Hq. cbn [fdiv].
  rewrite Reqb_false by lra. cbn [fmul fdiv].
  now rewrite Reqb_false by assumption.
Qed.

(** X20: the frequency axis of the FFT spectra.  For a signal of
    [N >= 2] samples and a non-zero finite time step, [FFTpower] and
    [FFTpowerdensity] return [N/2 + 1] frequencies and as many values;
    the [k]th frequency is [k / (N/2) * 0.5 / timestep], so the axis
    starts at 0 and ends at the Nyquist frequency [0.5 / timestep]. *)
Theorem FFT_frequency_axis (signal : array) (dt : R) :
  (2 <= length signal)%nat -> dt <> 0 ->
  let Nfreq := (length signal / 2 + 1)%nat in
  let axis := map (fun k => Fin (INR k / INR (length signal / 2) * 0.5 / dt))
                  (seq 0 Nfreq) in
  (exists power,
      FFTpower signal (Fin dt) = Ok (axis, power) /\ length power = Nfreq)
  /\ (exists density,
         FFTpowerdensity signal (Fin dt) = Ok (axis, density)
         /\ length density = Nfreq)
  /\ length axis = Nfreq
  /\ nth 0 axis NaN = Fin 0
  /\ last axis NaN = Fin (0.5 / dt).
Proof.
  intros HN Hdt Nfreq axis.
  assert (Hne : signal <> []) by (destruct signal; [simpl in HN; lia |
                                                    discriminate]).
  assert (Hh : (0 < length signal / 2)%nat).
  { apply Nat.div_str_pos. lia. }
  assert (Hq : 0 < INR (length signal / 2)) by now apply lt_0_INR.
  destruct (rfft_nonempty signal Hne) as (fourier & Hf & Hl).
  assert (Hax : fft_frequencies (length fourier) (Fin dt) = axis).
  { rewrite Hl. now apply fft_frequencies_finite. }
  split; [| split; [| split; [| split]]].
  - unfold FFTpower. rewrite Hf. cbn [bind]. rewrite Hax.
    eexists. split; [reflexivity |]. now rewrite length_map.
  - unfold FFTpowerdensity. rewrite Hf. cbn [bind]. rewrite Hax.
    eexists. split; [reflexivity |]. now rewrite length_map.
  - unfold axis. now rewrite length_map, length_seq.
  - unfold axis, Nfreq. rewrite Nat.add_1_r. cbn [seq map nth].
    f_equal. simpl INR. unfold Rdiv. ring.
  - unfold axis, Nfreq. rewrite Nat.add_1_r, seq_S, map_app.
    cbn [map]. rewrite last_last. f_equal. cbn [Nat.add]. field.
    split; lra.
Qed.

Lemma FFT_frequency_axis_witness :
  (2 <= length [Fin 1; Fin 2; Fin 3; Fin 4])%nat /\ 0.5 <> 0 /\
  exists power,
    FFTpower [Fin 1; Fin 2; Fin 3; Fin 4] (Fin 0.5)
      = Ok (map (fun k => Fin (INR k / INR 2 * 0.5 / 0.5)) (seq 0 3), power)
    /\ length power = 3%nat.
Proof.
  split; [simpl; lia |]. split; [lra |].
  destruct (FFT_frequency_axis [Fin 1; Fin 2; Fin 3; Fin 4] 0.5)
    as (Hp & _); [simpl; lia | lra |].
  exact Hp.
Defined.

(** X21: the edge cases of the FFT spectra.  On an empty signal both
    functions raise [ValueError] (from [rfft]); on a single sample they
    return, but their one frequency is [NaN]: it is [0/0], the axis
    being scaled by [Nfreq - 1 = 0]. *)
Theorem FFT_short_signals (x dt : float) :
  FFTpower [] dt = Err ValueError
  /\ FFTpowerdensity [] dt = Err ValueError
  /\ (exists power, FFTpower [x] dt = Ok ([NaN], power))
  /\ (exists density, FFTpowerdensity [x] dt = Ok ([NaN], density)).
Proof.
  assert (Hax : fft_frequencies 1 dt = [NaN]).
  { unfold fft_frequencies, of_nat, of_Z. cbn [seq map Z.of_nat].
    change (Z.pos 1 - 1)%Z with 0%Z. cbn [INR fdiv].
    rewrite Reqb_true by reflexivity. unfold inf_of_sign.
    rewrite !Rltb_false by lra. reflexivity. }
  destruct (rfft_nonempty [x]) as (fourier & Hf & Hl); [discriminate |].
  change (length [x] / 2 + 1)%nat with 1%nat in Hl.
  repeat split; try reflexivity.
  - unfold FFTpower. rewrite Hf. cbn [bind]. rewrite Hl, Hax.
    eexists. reflexivity.
  - unfold FFTpowerdensity. rewrite Hf. cbn [bind]. rewrite Hl, Hax.
    eexists. reflexivity.
Qed.

(** ** The grids of [gls] and [kepler] *)

Lemma Int_part_plus_1 (x : R) : Int_part (x + 1) = (Int_part x + 1)%Z.
Proof.
  symmetry. apply Int_part_spec. destruct (base_Int_part x) as [H1 H2].
  rewrite plus_IZR. lra.
Qed.

Lemma Int_part_tolerance (x : R) :
  (Int_part x <= Int_part (x + 0.001) <= Int_part x + 1)%Z.
Proof.
  destruct (base_Int_part x) as [H1 H2].
  destruct (base_Int_part (x + 0.001)) as [H3 H4].
  split.
  - apply Z.lt_succ_r, lt_IZR. rewrite succ_IZR. lra.
  - apply Z.lt_succ_r, lt_IZR. rewrite succ_IZR, plus_IZR. lra.
Qed.

Lemma idle_writes_in_place : writes_in_place idle_kernels idle_more.
Proof. split; intros; simpl; split; reflexivity. Qed.

(** X22: [gls] and [kepler] allocate [int((fn-f0)/df + 1)] samples, where
    [scargle] allocates [int((fn-f0)/df + 0.001) + 1].  With a non-empty
    time array, [f0 < fn], [df > 0] and kernels that keep the size of
    their buffers, the three calls return; [gls] and [kepler] return
    frequency and statistic arrays of one common length [n >= 1], and
    unweighted [scargle] on the same grid returns arrays of length [n] or
    [n + 1]. *)
Theorem gls_kepler_size (g : namespace) (K : fortran) (M : fortran_more)
  (times signal : array) (f0 fn df : R) (errors : option array) (wexp : Z)
  (e0 en de x00 x0n : float) (norm : string) :
  keeps_shape K -> writes_in_place K M ->
  times <> [] -> f0 < fn -> 0 < df ->
  exists n m : nat,
    (exists f1 s1,
        gls K times signal (Fin f0) (Fin fn) (Fin df) errors wexp
          = Ok (f1, s1)
        /\ length f1 = n /\ length s1 = n)
    /\ (exists f1 s2,
           kepler M times signal (Fin f0) (Fin fn) (Fin df) e0 en de errors
                  wexp x00 x0n = Ok (f1, s2)
           /\ length f1 = n /\ length s2 = n)
    /\ (exists f1 s1,
           scargle g K times signal (Fin f0) (Fin fn) (Fin df) norm None
             = Ok (f1, s1)
           /\ length f1 = m /\ length s1 = m)
    /\ (1 <= n)%nat /\ (n <= m <= n + 1)%nat.
Proof.
  intros HK [Hgls Hkep] Ht Hf Hd.
  exists (Z.to_nat (Int_part ((fn - f0) / df) + 1)),
         (specified_size f0 fn df).
  destruct (np_ptp_nonempty times Ht) as [T HT].
  assert (Hx : 0 <= (fn - f0) / df).
  { apply Rmult_le_pos; [lra | left; now apply Rinv_0_lt_compat]. }
  assert (Hi : (0 <= Int_part ((fn - f0) / df))%Z)
    by now apply Int_part_nonneg.
  assert (Hstep : py_int (Fin ((fn - f0) / df + 1))
                  = Ok (Int_part ((fn - f0) / df) + 1)%Z).
  { cbn [py_int]. rewrite Rtrunc_floor by lra. now rewrite Int_part_plus_1. }
  split; [| split; [| split; [| split]]].
  - unfold gls, py_div. rewrite HT. cbn [bind].
    rewrite Reqb_false by lra. cbn [bind fsub fopp fadd fdiv].
    rewrite Reqb_false by lra. cbn [bind fadd].
    change (fn + - f0) with (fn - f0). rewrite Hstep. cbn [bind].
    rewrite np_zeros_Ok by lia. cbn [bind].
    match goal with
    | |- context [pyGLS_gls K ?a ?b ?c ?d ?e ?f ?w ?z1 ?z2 ?z3 ?z4] =>
        pose proof (Hgls a b c d e f w z1 z2 z3 z4) as H;
        destruct (pyGLS_gls K a b c d e f w z1 z2 z3 z4)
          as [[[f1 s1] p1] l1]
    end.
    destruct H as [H1 H2]. rewrite repeat_length in H1, H2.
    exists f1, s1. repeat split; assumption.
  - unfold kepler, py_div. rewrite HT. cbn [bind].
    rewrite Reqb_false by lra. cbn [bind fsub fopp fadd fdiv].
    rewrite Reqb_false by lra. cbn [bind fadd].
    change (fn + - f0) with (fn - f0). rewrite Hstep. cbn [bind].
    rewrite !np_zeros_Ok by lia. cbn [bind].
    match goal with
    | |- context [pyKEP_kepler M ?a ?b ?c ?d ?e ?f ?w ?e0 ?en ?de ?x0 ?xn
                               ?z1 ?z2 ?z3 ?z4 ?z5 ?z6] =>
        pose proof (Hkep a b c d e f w e0 en de x0 xn z1 z2 z3 z4 z5 z6)
          as H;
        destruct (pyKEP_kepler M a b c d e f w e0 en de x0 xn
                               z1 z2 z3 z4 z5 z6)
          as [[[[[f1 s1] p1] l1] s2] k2]
    end.
    destruct H as [H1 H2]. rewrite repeat_length in H1, H2.
    exists f1, s2. repeat split; assumption.
  - now apply scargle_length.
  - lia.
  - unfold specified_size.
    pose proof (Int_part_tolerance ((fn - f0) / df)). lia.
Qed.

Lemma gls_kepler_size_witness :
  keeps_shape idle_kernels /\ writes_in_place idle_kernels idle_more /\
  [Fin 0; Fin 10] <> [] /\ 0 < 10 /\ 0 < 1 /\
  exists n m : nat,
    (exists f1 s1,
        gls idle_kernels [Fin 0; Fin 10] [Fin 1; Fin 2] (Fin 0) (Fin 10)
            (Fin 1) None 2 = Ok (f1, s1)
        /\ length f1 = n /\ length s1 = n)
    /\ (exists f1 s1,
           scargle (module_globals Imported) idle_kernels [Fin 0; Fin 10]
                   [Fin 1; Fin 2] (Fin 0) (Fin 10) (Fin 1) "power" None
             = Ok (f1, s1)
           /\ length f1 = m /\ length s1 = m)
    /\ (1 <= n)%nat /\ (n <= m <= n + 1)%nat.
Proof.
  split; [apply idle_kernels_keep_shape |].
  split; [apply idle_writes_in_place |].
  split; [discriminate |]. split; [lra |]. split; [lra |].
  destruct (gls_kepler_size (module_globals Imported) idle_kernels idle_more
              [Fin 0; Fin 10] [Fin 1; Fin 2] 0 10 1 None 2 (Fin 0)
              (Fin 0.91) (Fin 0.1) (Fin 0) (Fin 359.9) "power")
    as (n & m & Hg & _ & Hs & Hn & Hm);
    [apply idle_kernels_keep_shape | apply idle_writes_in_place | discriminate
    | lra | lra |].
  exists n, m. repeat split; try assumption; lia.
Defined.

(** ** The bins of [clean] *)



